(** * LsstCameraUtils: which LSST detector sees a pupil-plane point

    A shallow embedding of [python/lsst/sims/coordUtils/LsstCameraUtils.py]:
    the cached table of bounding circles ([_build_lsst_pupil_coord_map]),
    the batched containment search ([_findDetectorsListLSST]) and the two
    entry points ([chipNameFromPupilCoordsLSST], [_chipNameFromRaDecLSST]).

    Python lists and numpy arrays are lists, indexed with stdpp's lookup
    [l !! i] and updated with [<[i:=x]> l]; every Python index that can be
    out of range is a lookup whose [None] raises [IndexError].  numpy
    float64 values are read as the real numbers they stand for where the
    code only computes with them (the build of the map); where the code
    decides on them (the test of lines 198-199) the computation is kept in
    float64, on the double that holds each value.  The module-level
    globals are an explicit record threaded through the calls. *)

From Stdlib Require Import Floats Uint63.
From Stdlib Require Import ZArith List String Ascii Lia Reals Lra.
From stdpp Require Import base decidable list strings.

Open Scope string_scope.
Open Scope list_scope.

(** ** Python values and control flow *)

Inductive PyError :=
| RuntimeError (msg : string)
| IndexError
| KeyError (key : string)
| TypeError.

(** Result of a call: a value or a raised exception. *)
Inductive Res (A : Type) :=
| Ok (a : A)
| Raise (e : PyError).
Arguments Ok {A} a.
Arguments Raise {A} e.

(** Result of a loop body: fall through to the next iteration, [return]
    from the enclosing function, or raise. *)
Inductive Flow (S : Type) :=
| Next (s : S)
| Return (s : S)
| Raised (e : PyError).
Arguments Next {S} s.
Arguments Return {S} s.
Arguments Raised {S} e.

(** [for a in l: body], threading the state [s]. *)
Fixpoint for_each {A S : Type} (body : A → S → Flow S) (l : list A) (s : S)
  : Flow S :=
  match l with
  | [] => Next s
  | a :: l' =>
      match body a s with
      | Next s' => for_each body l' s'
      | r => r
      end
  end.

(** [np.where(P(a))[0]]: the indices at which [P] holds, increasing. *)
Fixpoint where_from {A : Type} (P : A → bool) (i : nat) (a : list A)
  : list nat :=
  match a with
  | [] => []
  | x :: a' =>
      if P x then i :: where_from P (S i) a' else where_from P (S i) a'
  end.

Definition np_where {A : Type} (P : A → bool) (a : list A) : list nat :=
  where_from P 0 a.

(** [[a[ii] for ii in dexes]], raising [IndexError] out of range. *)
Fixpoint take_at {A : Type} (a : list A) (dexes : list nat) : Res (list A) :=
  match dexes with
  | [] => Ok []
  | ii :: rest =>
      match a !! ii with
      | None => Raise IndexError
      | Some x =>
          match take_at a rest with
          | Ok xs => Ok (x :: xs)
          | Raise e => Raise e
          end
      end
  end.

(** ** [str] of a list of names

    [repr] of a byte string as Python 2 prints it: single quotes unless
    the string holds a single quote and no double quote; backslash, the
    chosen quote, tab, newline and carriage return escaped; other bytes
    outside the printable range as [\xNN]. *)

Definition squote : ascii := ascii_of_nat 39.
Definition dquote : ascii := ascii_of_nat 34.
Definition backslash : ascii := ascii_of_nat 92.

Definition hex_digit (n : nat) : ascii :=
  match String.get n "0123456789abcdef" with
  | Some c => c
  | None => "0"%char
  end.

Definition repr_char (quote c : ascii) : string :=
  let n := nat_of_ascii c in
  if (Ascii.eqb c quote || Ascii.eqb c backslash)%bool then
    String backslash (String c EmptyString)
  else if Nat.eqb n 9 then String backslash "t"
  else if Nat.eqb n 10 then String backslash "n"
  else if Nat.eqb n 13 then String backslash "r"
  else if (Nat.ltb n 32 || Nat.leb 127 n)%bool then
    String backslash
      (String "x"%char
         (String (hex_digit (n / 16)) (String (hex_digit (n mod 16)) EmptyString)))
  else String c EmptyString.

Fixpoint has_char (c : ascii) (s : string) : bool :=
  match s with
  | EmptyString => false
  | String c' s' => (Ascii.eqb c c' || has_char c s')%bool
  end.

Fixpoint repr_body (quote : ascii) (s : string) : string :=
  match s with
  | EmptyString => EmptyString
  | String c s' => repr_char quote c +:+ repr_body quote s'
  end.

Definition py_repr (s : string) : string :=
  let quote :=
    if (has_char squote s && negb (has_char dquote s))%bool
    then dquote else squote in
  String quote (repr_body quote s +:+ String quote EmptyString).

Fixpoint join_comma (l : list string) : string :=
  match l with
  | [] => EmptyString
  | [s] => s
  | s :: l' => s +:+ ", " +:+ join_comma l'
  end.

(** [str(name)] for a Python list [name] of strings. *)
Definition py_str_list (names : list string) : string :=
  "[" +:+ join_comma (map py_repr names) +:+ "]".

(** ** Detectors and the camera geometry *)

(** [lsst.afw.cameraGeom] detector types. *)
Inductive DetectorType := SCIENCE | FOCUS | GUIDER | WAVEFRONT.

(** A detector of the camera, as far as this module looks at it: its
    name and its type.  Its pixel box and its transforms are functions of
    the detector, see [CameraGeom]. *)
Record Detector := mkDetector {
  getName : string;
  getType : DetectorType
}.

#[global] Instance DetectorType_eq_dec : EqDecision DetectorType.
Proof. solve_decision. Defined.

#[global] Instance Detector_eq_dec : EqDecision Detector.
Proof. solve_decision. Defined.

(** What the search asks of [lsst.afw]: the camera's transform from PUPIL
    to its native system ([_transformSingleSysArray], applied point by
    point), a detector's transform from the native system to its PIXELS
    ([getTransformMap().transform]), and [Box2D(getBBox()).contains]. *)
Class CameraGeom (CameraPoint : Type) := {
  NativePoint : Type;
  PixelPoint : Type;
  transformToNative : CameraPoint → NativePoint;
  detectorTransform : Detector → NativePoint → PixelPoint;
  boxContains : Detector → PixelPoint → bool
}.

(** ** The batched containment search *)

(** An entry of [outputNameList] while the search runs: [None], a name,
    or a Python list of names. *)
Inductive Slot :=
| SNone
| SStr (name : string)
| SList (names : list string).

(** Ghost record of one execution of lines 138-154: the detector whose
    box was tested, the points it was tested on, and [outputNameList] and
    [chip_has_found] as they were just before. *)
Record TestEvent := mkTestEvent {
  ev_detector : Detector;
  ev_points : list nat;
  ev_output : list Slot;
  ev_found : list Z
}.

Record LoopState := mkLoopState {
  outputNameList : list Slot;
  chip_has_found : list Z;
  checked_detectors : list string;
  tests : list TestEvent          (* ghost: the tests made so far, oldest first *)
}.

Definition set_outputNameList (ix : nat) (v : Slot) (st : LoopState) :=
  mkLoopState (<[ix:=v]> (outputNameList st)) (chip_has_found st)
              (checked_detectors st) (tests st).

Definition set_chip_has_found (ix : nat) (v : Z) (st : LoopState) :=
  mkLoopState (outputNameList st) (<[ix:=v]> (chip_has_found st))
              (checked_detectors st) (tests st).

Definition append_checked (name : string) (st : LoopState) :=
  mkLoopState (outputNameList st) (chip_has_found st)
              (checked_detectors st ++ [name]) (tests st).

Definition log_test (detector : Detector) (dexes : list nat) (st : LoopState) :=
  mkLoopState (outputNameList st) (chip_has_found st) (checked_detectors st)
              (tests st ++ [mkTestEvent detector dexes (outputNameList st)
                                        (chip_has_found st)]).

Definition is_wavefront (det : Detector) : bool :=
  bool_decide (getType det = WAVEFRONT).

(** Lines 118-123. *)
Definition mark_could_be_multiple (detectorList : list (list Detector))
    (ipt : nat) (could_be_multiple : list bool) : Flow (list bool) :=
  match detectorList !! ipt with
  | None => Raised IndexError
  | Some dets =>
      for_each
        (fun det cbm =>
           if is_wavefront det then Next (<[ipt:=true]> cbm) else Next cbm)
        dets could_be_multiple
  end.

Definition could_be_multiple_of (n : nat) (detectorList : list (list Detector))
    (allow_multiple_chips : bool) : Flow (list bool) :=
  let could_be_multiple := replicate n false in
  if allow_multiple_chips then
    for_each (mark_could_be_multiple detectorList) (seq 0 n) could_be_multiple
  else Next could_be_multiple.

(** Line 136: [[ii for ii in unfound_pts if detector in detectorList[ii]]]. *)
Fixpoint valid_pt_dexes_of (detector : Detector)
    (detectorList : list (list Detector)) (unfound_pts : list nat)
  : Res (list nat) :=
  match unfound_pts with
  | [] => Ok []
  | ii :: rest =>
      match detectorList !! ii with
      | None => Raise IndexError
      | Some dets =>
          match valid_pt_dexes_of detector detectorList rest with
          | Ok r => Ok (if bool_decide (detector ∈ dets) then ii :: r else r)
          | Raise e => Raise e
          end
      end
  end.

(** Lines 145-154: the point [ix] is inside the box of [detector]. *)
Definition record_hit (detector : Detector) (could_be_multiple : list bool)
    (ix : nat) (st : LoopState) : Flow LoopState :=
  match could_be_multiple !! ix with
  | None => Raised IndexError
  | Some false =>
      Next (set_chip_has_found ix 1
              (set_outputNameList ix (SStr (getName detector)) st))
  | Some true =>
      match outputNameList st !! ix with
      | None => Raised IndexError
      | Some SNone => Next (set_outputNameList ix (SStr (getName detector)) st)
      | Some (SList names) =>
          Next (set_outputNameList ix (SList (names ++ [getName detector])) st)
      | Some (SStr name) =>
          Next (set_outputNameList ix (SList [name; getName detector]) st)
      end
  end.

Section Search.
Context {CameraPoint : Type} `{G : CameraGeom CameraPoint}.

(** Lines 138-154. *)
Definition test_detector (detector : Detector)
    (nativePointList : list NativePoint) (could_be_multiple : list bool)
    (valid_pt_dexes : list nat) (st : LoopState) : Flow LoopState :=
  match take_at nativePointList valid_pt_dexes with
  | Raise e => Raised e
  | Ok valid_pt_list =>
      let detectorPointList := map (detectorTransform detector) valid_pt_list in
      for_each
        (fun '(ix, pt) st =>
           if boxContains detector pt
           then record_hit detector could_be_multiple ix st
           else Next st)
        (zip valid_pt_dexes detectorPointList)
        (log_test detector valid_pt_dexes st)
  end.

(** Lines 128-154, the body of [for detector in detectorList[ipt]]. *)
Definition visit_detector (detectorList : list (list Detector))
    (nativePointList : list NativePoint) (could_be_multiple : list bool)
    (detector : Detector) (st : LoopState) : Flow LoopState :=
  if bool_decide (getName detector ∈ checked_detectors st) then Next st
  else
    let st := append_checked (getName detector) st in
    let unfound_pts := np_where (fun v => (v <? 0)%Z) (chip_has_found st) in
    if Nat.eqb (length unfound_pts) 0 then Return st
    else
      match valid_pt_dexes_of detector detectorList unfound_pts with
      | Raise e => Raised e
      | Ok valid_pt_dexes =>
          if Nat.ltb 0 (length valid_pt_dexes)
          then test_detector detector nativePointList could_be_multiple
                             valid_pt_dexes st
          else Next st
      end.

(** Lines 125-127, the body of [for ipt, nativePoint in enumerate(...)]. *)
Definition visit_point (detectorList : list (list Detector))
    (nativePointList : list NativePoint) (could_be_multiple : list bool)
    (ipt_nativePoint : nat * NativePoint) (st : LoopState) : Flow LoopState :=
  let ipt := fst ipt_nativePoint in
  match outputNameList st !! ipt with
  | None => Raised IndexError
  | Some SNone =>
      match detectorList !! ipt with
      | None => Raised IndexError
      | Some dets =>
          for_each
            (visit_detector detectorList nativePointList could_be_multiple)
            dets st
      end
  | Some _ => Next st
  end.

(** Lines 112-154: the search up to its [return], with the state it
    returns from (by line 135 or by falling out of the loop). *)
Definition search (cameraPointList : list CameraPoint)
    (detectorList : list (list Detector)) (allow_multiple_chips : bool)
  : Flow LoopState :=
  let nativePointList := map transformToNative cameraPointList in
  let n := length cameraPointList in
  let st0 := mkLoopState (replicate n SNone) (replicate n (-1)%Z) [] [] in
  match could_be_multiple_of n detectorList allow_multiple_chips with
  | Raised e => Raised e
  | Next could_be_multiple | Return could_be_multiple =>
      for_each (visit_point detectorList nativePointList could_be_multiple)
               (zip (seq 0 (length nativePointList)) nativePointList) st0
  end.

(** Lines 132-134 and 156-158: a list becomes its [str]. *)
Definition stringify (name : Slot) : option string :=
  match name with
  | SNone => None
  | SStr s => Some s
  | SList names => Some (py_str_list names)
  end.

Definition _findDetectorsListLSST (cameraPointList : list CameraPoint)
    (detectorList : list (list Detector)) (allow_multiple_chips : bool)
  : Res (list (option string)) :=
  match search cameraPointList detectorList allow_multiple_chips with
  | Raised e => Raise e
  | Next st | Return st => Ok (map stringify (outputNameList st))
  end.

End Search.

(** ** A small camera to run the search on

    Points are numbered; [toy_inside] says which point is in which box. *)

Definition W1 := mkDetector "R:0,0 S:1,1,A" WAVEFRONT.
Definition W2 := mkDetector "R:0,0 S:1,1,B" WAVEFRONT.
Definition O1 := mkDetector "R:2,2 S:1,1" SCIENCE.
Definition O2 := mkDetector "R:2,2 S:1,2" SCIENCE.

Definition table_geom (inside : Detector → nat → bool) : CameraGeom nat :=
  {| NativePoint := nat; PixelPoint := nat;
     transformToNative := fun p => p;
     detectorTransform := fun _ p => p;
     boxContains := inside |}.

(** Point 0 is in the box of [W1] only, point 1 in the boxes of [W1] and
    [W2], point 2 in the boxes of [O1] and [O2]. *)
Definition toy_inside (d : Detector) (p : nat) : bool :=
  match p with
  | 0 => bool_decide (d = W1)
  | 1 => bool_decide (d = W1) || bool_decide (d = W2)
  | 2 => bool_decide (d = O1) || bool_decide (d = O2)
  | _ => false
  end.

Definition toy := table_geom toy_inside.

(** ** The module's globals and entry points *)

Open Scope R_scope.

(** A pupil coordinate argument: a Python number or a numpy array. *)
Inductive PyArg :=
| PyNumber (x : R)
| PyArray (a : list R).

(** [afwGeom.Point2D]. *)
Definition Point2D : Type := R * R.

(** The fields of an [ObservationMetaData] the module reads; [None] is
    Python's [None]. *)
Record ObservationMetaData := mkObs {
  mjd : option R;
  rotSkyPos : option R
}.

(** The collaborators the module imports: the camera of [LsstSimMapper]
    as the list of its detectors in iteration order, [getCornerPixels]
    (for this camera), [pupilCoordsFromPixelCoords] on one pixel
    position of one chip (the batched call transforms its arrays entry
    by entry), [_pupilCoordsFromRaDec], the [lsst.afw] geometry, and
    numpy's storage of a coordinate: [float64_of x] is the float64 that
    holds the value [x]. *)
Class LsstSim := {
  _lsst_camera : list Detector;
  getCornerPixels : string → list (R * R);
  pupilCoordsFromPixelCoords1 : R → R → string → R * R;
  _pupilCoordsFromRaDec :
    PyArg → PyArg → ObservationMetaData → R → Res (PyArg * PyArg);
  lsst_geom :: CameraGeom Point2D;
  float64_of : R → float
}.

(** [_lsst_pupil_coord_map]: the dict of four arrays. *)
Record PupilCoordMap := mkMap {
  map_name : list string;
  map_xx : list R;
  map_yy : list R;
  map_dp : list R
}.

(** Ghost record of what a call did outside this module. *)
Inductive Effect :=
| MapBuilt            (* line 75-79: the global was assigned *)
| PixelsToPupil       (* line 48: pupilCoordsFromPixelCoords *)
| RaDecToPupil        (* line 248: _pupilCoordsFromRaDec *)
| PupilToNative.      (* line 204: the search and its transforms *)

#[global] Instance Effect_eq_dec : EqDecision Effect.
Proof. solve_decision. Defined.

Record Globals := mkGlobals {
  _lsst_pupil_coord_map : option PupilCoordMap;
  history : list Effect       (* ghost, oldest first *)
}.

(** The module as imported: nothing built yet. *)
Definition initial_globals : Globals := mkGlobals None [].

(** A call reads and writes the globals and returns or raises; what was
    written before a [raise] stays written. *)
Definition Py (A : Type) : Type := Globals → Globals * Res A.

#[global] Instance Py_ret : MRet Py := fun A a g => (g, Ok a).

#[global] Instance Py_bind : MBind Py := fun A B k m g =>
  match m g with
  | (g', Ok a) => k a g'
  | (g', Raise e) => (g', Raise e)
  end.

Definition py_raise {A : Type} (e : PyError) : Py A := fun g => (g, Raise e).

Definition py_lift {A : Type} (r : Res A) : Py A := fun g => (g, r).

Definition read_map : Py (option PupilCoordMap) :=
  fun g => (g, Ok (_lsst_pupil_coord_map g)).

Definition write_map (m : PupilCoordMap) : Py unit :=
  fun g => (mkGlobals (Some m) (history g ++ [MapBuilt]), Ok tt).

Definition note (e : Effect) : Py unit :=
  fun g => (mkGlobals (_lsst_pupil_coord_map g) (history g ++ [e]), Ok tt).

(** [np.array(...).sum()]. *)
Definition np_sum (a : list R) : R := fold_left Rplus a 0.

(** [np.power(v, 2)] on a float64: the square, taken as correctly
    rounded (one rounding of the exact square). *)
Definition np_power2 (v : float) : float := PrimFloat.mul v v.

(** Lines 198-199 for one chip:
    [np.sqrt(np.power(xx-cx,2) + np.power(yy-cy,2))/dp], every operation
    in IEEE 754 binary64 as numpy computes it; on overflow or a zero
    [dp] the value is [inf] or [nan]. *)
Definition np_distance_ratio (xx yy cx cy dp : float) : float :=
  PrimFloat.div
    (PrimFloat.sqrt
       (PrimFloat.add (np_power2 (PrimFloat.sub xx cx))
                      (np_power2 (PrimFloat.sub yy cy))))
    dp.

(** The constant [1.1] of line 199: the float64 nearest to 1.1. *)
#[warnings="-inexact-float"]
Definition margin : float := 1.1%float.

(** [a < b] on float64, as a mask entry: false when either is [nan]. *)
Definition np_less (a b : float) : bool := PrimFloat.ltb a b.

Definition is_array (a : PyArg) : bool :=
  match a with PyArray _ => true | PyNumber _ => false end.

Definition is_number (a : PyArg) : bool :=
  match a with PyNumber _ => true | PyArray _ => false end.

Definition arg_length (a : PyArg) : nat :=
  match a with PyArray xs => length xs | PyNumber _ => 0%nat end.

(** Modelled from the spec: [_validate_inputs] of
    [lsst.sims.utils.CodeUtilities], which this module imports.  It
    confirms that the inputs are all arrays of one length or all
    numbers, and fails otherwise; its result says whether they are
    arrays. *)
Definition _validate_inputs (input_list : list PyArg)
    (input_names : list string) (method_name : string) : Res bool :=
  match input_list with
  | [] => Raise IndexError
  | first :: _ =>
      if is_array first then
        if forallb is_array input_list then
          if forallb (fun a => Nat.eqb (arg_length a) (arg_length first))
                     input_list
          then Ok true
          else Raise (RuntimeError
                 ("The arrays input to " +:+ method_name
                  +:+ " all need to have the same length"))
        else Raise (RuntimeError
               ("Inputs to " +:+ method_name +:+ " are not all numpy arrays"))
      else
        if forallb is_number input_list then Ok false
        else Raise (RuntimeError
               ("Inputs to " +:+ method_name +:+ " are not all numbers"))
  end.

Section Facade.
Context `{L : LsstSim}.

(** [_lsst_camera[name]]: the camera's dictionary from names to
    detectors. *)
Definition camera_getitem (name : string) : Res Detector :=
  match find (fun d => bool_decide (getName d = name)) _lsst_camera with
  | Some d => Ok d
  | None => Raise (KeyError name)
  end.

(** Lines 32-43: the names and the pixel corners, four entries per
    chip when [getCornerPixels] returns four corners. *)
Definition corner_names : list string :=
  flat_map (fun chip =>
              map (fun _ => getName chip) (getCornerPixels (getName chip)))
           _lsst_camera.

Definition corner_pixels : list (R * R) :=
  flat_map (fun chip => getCornerPixels (getName chip)) _lsst_camera.

(** Line 48, entry by entry. *)
Definition pupilCoordsFromPixelCoords (x_pix_list y_pix_list : list R)
    (name_list : list string) : list R * list R :=
  let pup :=
    zip_with (fun xy name => pupilCoordsFromPixelCoords1 xy.1 xy.2 name)
             (zip x_pix_list y_pix_list) name_list in
  (map fst pup, map snd pup).

(** Lines 57-71, the body of [for ix_ct in range(n_chips)]. *)
Definition footprint_step (name_list : list string)
    (x_pup_list y_pup_list : list R) (ix_ct : nat)
    (acc : list R * list R * list R * list string)
  : Flow (list R * list R * list R * list string) :=
  let '(center_x, center_y, extent, final_name) := acc in
  let ix := (ix_ct * 4)%nat in
  let at4 := [ix; ix + 1; ix + 2; ix + 3]%nat in
  match (name_list : list string) !! ix, take_at x_pup_list at4, take_at y_pup_list at4 with
  | Some chip_name, Ok [x0; x1; x2; x3], Ok [y0; y1; y2; y3] =>
      let xx := 0.25 * (x0 + x1 + x2 + x3) in
      let yy := 0.25 * (y0 + y1 + y2 + y3) in
      let dx :=
        0.25 * np_sum (zip_with (fun x y => sqrt ((xx - x) ^ 2 + (yy - y) ^ 2))
                                [x0; x1; x2; x3] [y0; y1; y2; y3]) in
      Next (<[ix_ct:=xx]> center_x, <[ix_ct:=yy]> center_y,
            <[ix_ct:=dx]> extent, (final_name ++ [chip_name])%list)
  | _, _, _ => Raised IndexError
  end.

(** Lines 18-79. *)
Definition _build_lsst_pupil_coord_map : Py unit :=
  built ← read_map;
  match built with
  | Some _ =>
      py_raise (RuntimeError
                  "Calling _build_pupil_coord_map(), but it is already built.")
  | None =>
      let name_list := corner_names in
      let x_pix_list := map fst corner_pixels in
      let y_pix_list := map snd corner_pixels in
      let n_chips := length _lsst_camera in
      _ ← note PixelsToPupil;
      let '(x_pup_list, y_pup_list) :=
        pupilCoordsFromPixelCoords x_pix_list y_pix_list name_list in
      let zeros := replicate n_chips 0 in
      match for_each (footprint_step name_list x_pup_list y_pup_list)
                     (seq 0 n_chips) (zeros, zeros, zeros, []) with
      | Raised e => py_raise e
      | Next (center_x, center_y, extent, final_name)
      | Return (center_x, center_y, extent, final_name) =>
          write_map (mkMap final_name center_x center_y extent)
      end
  end.

(** Lines 198-199: the indices of the chips for which the float64
    quotient of the distance by [dp] is below 1.1. *)
Definition possible_dexes (m : PupilCoordMap) (xx yy : R) : list nat :=
  np_where
    (fun '(cx, cy, dp) =>
       np_less (np_distance_ratio (float64_of xx) (float64_of yy)
                                  (float64_of cx) (float64_of cy)
                                  (float64_of dp))
               margin)
    (zip (zip (map_xx m) (map_yy m)) (map_dp m)).

(** Line 201. *)
Fixpoint local_valid (m : PupilCoordMap) (dexes : list nat)
  : Res (list Detector) :=
  match dexes with
  | [] => Ok []
  | ii :: rest =>
      match map_name m !! ii with
      | None => Raise IndexError
      | Some name =>
          match camera_getitem name with
          | Raise e => Raise e
          | Ok d =>
              match local_valid m rest with
              | Ok ds => Ok (d :: ds)
              | Raise e => Raise e
              end
          end
      end
  end.

(** Lines 196-202. *)
Fixpoint valid_detectors_of (m : PupilCoordMap) (points : list (R * R))
  : Res (list (list Detector)) :=
  match points with
  | [] => Ok []
  | (xx, yy) :: rest =>
      match local_valid m (possible_dexes m xx yy) with
      | Raise e => Raise e
      | Ok row =>
          match valid_detectors_of m rest with
          | Ok rows => Ok (row :: rows)
          | Raise e => Raise e
          end
      end
  end.

(** Lines 164-206. *)
Definition chipNameFromPupilCoordsLSST (xPupil yPupil : PyArg)
    (allow_multiple_chips : bool) : Py (list (option string)) :=
  built ← read_map;
  _ ← match built with
      | None => _build_lsst_pupil_coord_map
      | Some _ => mret tt
      end;
  are_arrays ← py_lift (_validate_inputs [xPupil; yPupil] ["xPupil"; "yPupil"]
                                         "chipNameFromPupilCoordsLSST");
  match are_arrays, xPupil, yPupil with
  | true, PyArray xs, PyArray ys =>
      let cameraPointList : list Point2D := zip xs ys in
      built ← read_map;
      match built with
      | None => py_raise TypeError   (* subscripting [None] *)
      | Some m =>
          valid_detectors ← py_lift (valid_detectors_of m (zip xs ys));
          _ ← note PupilToNative;
          py_lift (_findDetectorsListLSST cameraPointList valid_detectors
                                          allow_multiple_chips)
      end
  | _, _, _ =>
      py_raise (RuntimeError
        "Pupil coordinates passed to chipNameFromPupilCoordsLSST must be in numpy arrays")
  end.

(** Lines 209-249. *)
Definition _chipNameFromRaDecLSST (ra dec : PyArg)
    (obs_metadata : option ObservationMetaData) (epoch : option R)
    (allow_multiple_chips : bool) : Py (list (option string)) :=
  _ ← py_lift (_validate_inputs [ra; dec] ["ra"; "dec"] "chipNameFromRaDecLSST");
  match epoch with
  | None => py_raise (RuntimeError "You need to pass an epoch into chipName")
  | Some epoch =>
      match obs_metadata with
      | None =>
          py_raise (RuntimeError
            "You need to pass an ObservationMetaData into chipName")
      | Some obs =>
          match mjd obs with
          | None =>
              py_raise (RuntimeError
                "You need to pass an ObservationMetaData with an mjd into chipName")
          | Some _ =>
              match rotSkyPos obs with
              | None =>
                  py_raise (RuntimeError
                    "You need to pass an ObservationMetaData with a rotSkyPos into chipName")
              | Some _ =>
                  _ ← note RaDecToPupil;
                  xp_yp ← py_lift (_pupilCoordsFromRaDec ra dec obs epoch);
                  chipNameFromPupilCoordsLSST xp_yp.1 xp_yp.2
                                              allow_multiple_chips
              end
          end
      end
  end.

(** A call of one of the module's three functions, and a process as
    the calls it makes one after the other; a raised exception is
    caught by the caller and the process goes on. *)
Inductive ModuleCall :=
| CallBuild
| CallChipNameFromPupilCoords (xPupil yPupil : PyArg) (allow : bool)
| CallChipNameFromRaDec (ra dec : PyArg)
    (obs_metadata : option ObservationMetaData) (epoch : option R)
    (allow : bool).

Definition do_call (c : ModuleCall) (g : Globals) : Globals :=
  match c with
  | CallBuild => (_build_lsst_pupil_coord_map g).1
  | CallChipNameFromPupilCoords x y allow =>
      (chipNameFromPupilCoordsLSST x y allow g).1
  | CallChipNameFromRaDec ra dec obs epoch allow =>
      (_chipNameFromRaDecLSST ra dec obs epoch allow g).1
  end.

Definition run_process (calls : list ModuleCall) : Globals :=
  fold_left (fun g c => do_call c g) calls initial_globals.

End Facade.

(** The float64 of a whole number: the number itself when its size is
    at most 2^53, as every whole number used below is. *)
Definition float_of_Z (z : Z) : float :=
  match z with
  | Z0 => PrimFloat.zero
  | Zpos _ => PrimFloat.of_uint63 (Uint63.of_Z z)
  | Zneg p => PrimFloat.opp (PrimFloat.of_uint63 (Uint63.of_Z (Zpos p)))
  end.

(** The float64 that holds a whole number (for another value, the
    float64 of the whole number just below it); the shortlists computed
    below are of whole-number coordinates. *)
Definition float64_of_whole (x : R) : float := float_of_Z (Int_part x).

(** A camera of two chips for the entry points. *)
Definition two_chips : LsstSim :=
  {| _lsst_camera := [O1; O2];
     getCornerPixels := fun _ => [(0, 0); (0, 1); (1, 0); (1, 1)];
     pupilCoordsFromPixelCoords1 := fun x y _ => (x, y);
     _pupilCoordsFromRaDec := fun ra dec _ _ => Ok (ra, dec);
     lsst_geom :=
       {| NativePoint := Point2D; PixelPoint := Point2D;
          transformToNative := fun p => p;
          detectorTransform := fun _ p => p;
          boxContains := fun _ _ => false |};
     float64_of := float64_of_whole |}.

(** A camera of one chip for which [getCornerPixels] gives nothing. *)
Definition no_corners : LsstSim :=
  {| _lsst_camera := [O1];
     getCornerPixels := fun _ => [];
     pupilCoordsFromPixelCoords1 := fun x y _ => (x, y);
     _pupilCoordsFromRaDec := fun ra dec _ _ => Ok (ra, dec);
     lsst_geom := @lsst_geom two_chips;
     float64_of := float64_of_whole |}.

Open Scope R_scope.

(** A map of the two chips: unit circles about (0, 0) and (10, 0). *)
Definition two_circles : PupilCoordMap :=
  mkMap [getName O1; getName O2] [0; 10] [0; 0] [1; 1].

(** A map of the first chip alone: a circle of radius 65498190 about
    (0, 0).  The point (72048008, 12004) is at the distance
    sqrt (72048009^2 - 1) from its centre, and 72048009 is 1.1 times the
    radius. *)
Definition wide_circle : PupilCoordMap :=
  mkMap [getName O1] [0] [0] [65498190].

Close Scope R_scope.

(** ** Vocabulary of the statements *)

Close Scope R_scope.

(** The call came back, from the end of the loop or from inside it. *)
Definition returns {S : Type} (f : Flow S) (s : S) : Prop :=
  f = Next s ∨ f = Return s.

(** The names an entry of [outputNameList] holds. *)
Definition slot_names (s : Slot) : list string :=
  match s with
  | SNone => []
  | SStr name => [name]
  | SList names => names
  end.

(** What lines 145-154 make of an entry. *)
Definition hit_slot (name : string) (multi : bool) (s : Slot) : Slot :=
  if multi then
    match s with
    | SNone => SStr name
    | SStr first => SList [first; name]
    | SList names => SList (names ++ [name])
    end
  else SStr name.

(** [detector] is in the shortlist of point [i]. *)
Definition shortlisted (detectorList : list (list Detector)) (d : Detector)
    (i : nat) : bool :=
  match detectorList !! i with
  | Some dets => bool_decide (d ∈ dets)
  | None => false
  end.

(** Point [i] is still unfound: [chip_has_found[i] < 0]. *)
Definition unfound_at (found : list Z) (i : nat) : bool :=
  match found !! i with
  | Some v => (v <? 0)%Z
  | None => false
  end.

(** A camera gives its detectors distinct names, so two detectors of
    the shortlists with one name are one detector. *)
Definition unique_names (detectorList : list (list Detector)) : Prop :=
  ∀ dets dets' d d',
    dets ∈ detectorList → dets' ∈ detectorList → d ∈ dets → d' ∈ dets' →
    getName d = getName d' → d = d'.

Section SearchVocabulary.
Context {CameraPoint : Type} `{G : CameraGeom CameraPoint}.

(** The point is inside the pixel box of the detector. *)
Definition inside (d : Detector) (p : CameraPoint) : bool :=
  boxContains d (detectorTransform d (transformToNative p)).

Definition inside_at (pts : list CameraPoint) (d : Detector) (i : nat)
  : bool :=
  match pts !! i with
  | Some p => inside d p
  | None => false
  end.

(** [d] is shortlisted for point [i] and its box holds the point. *)
Definition hits (pts : list CameraPoint) (dl : list (list Detector))
    (d : Detector) (i : nat) : bool :=
  shortlisted dl d i && inside_at pts d i.

(** The oldest test of the log whose detector is shortlisted for
    point [i] and holds it. *)
Definition first_containing_test (pts : list CameraPoint)
    (dl : list (list Detector)) (i : nat) (log : list TestEvent)
  : option TestEvent :=
  List.find (fun ev => hits pts dl (ev_detector ev) i) log.

(** One step of the loop of line 143, on the index alone. *)
Definition hit_step (d : Detector) (nativePointList : list NativePoint)
    (cbm : list bool) (ix : nat) (st : LoopState) : Flow LoopState :=
  match nativePointList !! ix with
  | None => Raised IndexError
  | Some np =>
      if boxContains d (detectorTransform d np)
      then record_hit d cbm ix st
      else Next st
  end.

(** Lines 130 and 136: the unfound points that shortlist [d]. *)
Definition valid_of (dl : list (list Detector)) (d : Detector)
    (found : list Z) : list nat :=
  filter (fun i => shortlisted dl d i) (np_where (fun v => (v <? 0)%Z) found).

(** Point [i] is unfound, shortlists [d] and is inside its box: the
    test of [d] records it. *)
Definition target (pts : list CameraPoint) (dl : list (list Detector))
    (found : list Z) (d : Detector) (i : nat) : bool :=
  unfound_at found i && hits pts dl d i.

(** What one visit of a detector not seen before, with a point still
    unfound, makes of the state. *)
Record visit_post (pts : list CameraPoint) (dl : list (list Detector))
    (cbm : list bool) (d : Detector) (st st' : LoopState) : Prop := {
  vp_checked :
    checked_detectors st' = checked_detectors st ++ [getName d];
  vp_output_length :
    length (outputNameList st') = length (outputNameList st);
  vp_found_length :
    length (chip_has_found st') = length (chip_has_found st);
  vp_output : ∀ i,
    outputNameList st' !! i =
    if target pts dl (chip_has_found st) d i
    then hit_slot (getName d) (default false (cbm !! i))
           <$> outputNameList st !! i
    else outputNameList st !! i;
  vp_found : ∀ i,
    chip_has_found st' !! i =
    if target pts dl (chip_has_found st) d i && negb (default false (cbm !! i))
    then Some 1%Z
    else chip_has_found st !! i;
  vp_tests :
    tests st' =
    match valid_of dl d (chip_has_found st) with
    | [] => tests st
    | valid => tests st ++ [mkTestEvent d valid (outputNameList st)
                                        (chip_has_found st)]
    end
}.

(** The slot of a point that cannot be on several chips, read off the
    log of tests. *)
Definition single_slot (pts : list CameraPoint) (dl : list (list Detector))
    (i : nat) (log : list TestEvent) : Slot :=
  match first_containing_test pts dl i log with
  | Some ev => SStr (getName (ev_detector ev))
  | None => SNone
  end.

(** What holds of the state between two visits of a detector. *)
Record search_inv (pts : list CameraPoint) (dl : list (list Detector))
    (cbm : list bool) (st : LoopState) : Prop := {
  inv_output_length : length (outputNameList st) = length pts;
  inv_found_length : length (chip_has_found st) = length pts;
  inv_checked_NoDup : NoDup (checked_detectors st);
  inv_names : ∀ i s name,
    outputNameList st !! i = Some s → name ∈ slot_names s →
    name ∈ checked_detectors st
    ∧ ∃ d, getName d = name ∧ hits pts dl d i = true;
  inv_slot_NoDup : ∀ i s,
    outputNameList st !! i = Some s → NoDup (slot_names s);
  inv_single : ∀ i, cbm !! i = Some false →
    (chip_has_found st !! i = Some (-1)%Z ∧ outputNameList st !! i = Some SNone)
    ∨ (chip_has_found st !! i = Some 1%Z
       ∧ ∃ name, outputNameList st !! i = Some (SStr name));
  inv_multi : ∀ i, cbm !! i = Some true →
    chip_has_found st !! i = Some (-1)%Z;
  inv_tests_checked : ∀ ev,
    ev ∈ tests st → getName (ev_detector ev) ∈ checked_detectors st;
  inv_tests_NoDup :
    NoDup (map (fun ev => getName (ev_detector ev)) (tests st));
  inv_tests_unfound : ∀ ev, ev ∈ tests st →
    ∃ i, i < length pts ∧ i ∈ ev_points ev ∧ ev_found ev !! i = Some (-1)%Z
         ∧ shortlisted dl (ev_detector ev) i = true;
  inv_tests_snapshot : ∀ ev i, ev ∈ tests st →
    cbm !! i = Some false → ev_found ev !! i = Some (-1)%Z →
    ev_output ev !! i = Some SNone;
  inv_first : ∀ i, cbm !! i = Some false →
    outputNameList st !! i = Some (single_slot pts dl i (tests st));
  inv_complete : unique_names dl → ∀ i d,
    cbm !! i = Some false → hits pts dl d i = true →
    getName d ∈ checked_detectors st →
    outputNameList st !! i ≠ Some SNone;
  inv_tests_slots : ∀ ev i s, ev ∈ tests st →
    ev_output ev !! i = Some s → NoDup (slot_names s)
}.

(** From [st] to [st'] names are only added to [checked_detectors] and
    no entry goes back to [None]. *)
Definition grows (st st' : LoopState) : Prop :=
  (∀ name, name ∈ checked_detectors st → name ∈ checked_detectors st')
  ∧ (∀ i, outputNameList st' !! i = Some SNone →
          outputNameList st !! i = Some SNone).

(** The points before [k] are done with: one still at [None] has had
    every detector of its shortlist checked. *)
Definition visited (dl : list (list Detector)) (k : nat) (st : LoopState)
  : Prop :=
  ∀ i dets d, i < k → dl !! i = Some dets → d ∈ dets →
    outputNameList st !! i = Some SNone →
    getName d ∈ checked_detectors st.

(** No detector is tested once every point has a recorded result: each
    test of the log was made with some entry of [outputNameList] still
    [None]. *)
Definition tests_only_with_unrecorded (f : Flow LoopState) : Prop :=
  ∀ st ev, returns f st → ev ∈ tests st →
    ∃ i, ev_output ev !! i = Some SNone.

(** An entry of the result speaks of the point at its own index: it
    is [None], the name of a shortlisted detector holding the point,
    or the [str] of a list of such names. *)
Definition entry_for (pts : list CameraPoint) (dl : list (list Detector))
    (i : nat) (r : option string) : Prop :=
  r = None
  ∨ (∃ d, r = Some (getName d) ∧ hits pts dl d i = true)
  ∨ (∃ names, r = Some (py_str_list names)
       ∧ ∀ name, name ∈ names → ∃ d, getName d = name ∧ hits pts dl d i = true).

End SearchVocabulary.

(** ** Vocabulary of the statements on the entry points *)

Open Scope R_scope.

Definition Rsum (l : list R) : R := fold_right Rplus 0 l.

(** The arithmetic mean. *)
Definition mean (l : list R) : R := Rsum l / INR (length l).

(** The Euclidean distance in the plane. *)
Definition distance (p q : R * R) : R :=
  sqrt (Rsqr (p.1 - q.1) + Rsqr (p.2 - q.2)).

(** The mean of a list of points, coordinate by coordinate. *)
Definition centre (corners : list (R * R)) : R * R :=
  (mean (map fst corners), mean (map snd corners)).

(** The mean of the distances from [c] to the points. *)
Definition mean_distance (c : R * R) (corners : list (R * R)) : R :=
  mean (map (distance c) corners).

(** The observation context is absent, or has no [mjd], or has no
    [rotSkyPos]. *)
Definition context_incomplete (obs_metadata : option ObservationMetaData)
  : bool :=
  match obs_metadata with
  | None => true
  | Some obs =>
      match mjd obs, rotSkyPos obs with
      | Some _, Some _ => false
      | _, _ => true
      end
  end.

(** How many times the global was assigned. *)
Definition builds (g : Globals) : nat :=
  length (filter (fun e => e = MapBuilt) (history g)).

(** The globals as a process can have them: no map and no build, or a
    map and one build. *)
Definition globals_inv (g : Globals) : Prop :=
  match _lsst_pupil_coord_map g with
  | None => builds g = 0%nat
  | Some _ => builds g = 1%nat
  end.

(** The call keeps [P] of the globals, whether it returns or raises. *)
Definition preserves {A : Type} (P : Globals → Prop) (m : Py A) : Prop :=
  ∀ g, P g → P (m g).1.

Section FacadeVocabulary.
Context `{L : LsstSim}.

(** The corners of a chip in pupil coordinates. *)
Definition pupil_corners (chip : Detector) : list (R * R) :=
  map (fun c => pupilCoordsFromPixelCoords1 c.1 c.2 (getName chip))
      (getCornerPixels (getName chip)).

(** What the loop of line 56 has written after the chips of [pre]. *)
Definition footprints_upto (pre : list nat)
    (acc : list R * list R * list R * list string) : Prop :=
  let '(cx, cy, ext, fn) := acc in
  let n := length _lsst_camera in
  length cx = n ∧ length cy = n ∧ length ext = n
  ∧ fn = map getName (take (length pre) _lsst_camera)
  ∧ ∀ k chip, (k < length pre)%nat → _lsst_camera !! k = Some chip →
      let c := centre (pupil_corners chip) in
      cx !! k = Some c.1 ∧ cy !! k = Some c.2
      ∧ ext !! k = Some (mean_distance c (pupil_corners chip)).

(** [getCornerPixels] gives four corners for every chip of the camera. *)
Definition corners_ok : Prop :=
  ∀ chip, chip ∈ _lsst_camera →
    length (getCornerPixels (getName chip)) = 4%nat.

(** The map has one entry per array for each chip it names, names no
    chip twice and names chips of the camera only; the map that
    [_build_lsst_pupil_coord_map] writes is of this kind. *)
Definition map_ok (m : PupilCoordMap) : Prop :=
  length (map_xx m) = length (map_name m)
  ∧ length (map_yy m) = length (map_name m)
  ∧ length (map_dp m) = length (map_name m)
  ∧ NoDup (map_name m)
  ∧ ∀ name, name ∈ map_name m → ∃ d, d ∈ _lsst_camera ∧ getName d = name.

End FacadeVocabulary.

Close Scope R_scope.

(** ** Vocabulary of the further statements *)

Section MoreSearchVocabulary.
Context {CameraPoint : Type} `{G : CameraGeom CameraPoint}.

(** A point that may be on several chips has the name of every checked
    detector that is in its shortlist and holds it. *)
Definition multi_complete (pts : list CameraPoint) (dl : list (list Detector))
    (cbm : list bool) (st : LoopState) : Prop :=
  ∀ i d, cbm !! i = Some true → hits pts dl d i = true →
    getName d ∈ checked_detectors st →
    ∃ s, outputNameList st !! i = Some s ∧ getName d ∈ slot_names s.

(** Each test of the log was made on the points that were unfound and
    shortlisted its detector, all of them and no other. *)
Definition tests_batched (dl : list (list Detector)) (st : LoopState) : Prop :=
  ∀ ev, ev ∈ tests st →
    ev_points ev = valid_of dl (ev_detector ev) (ev_found ev).

(** What a loop of the search leaves: the invariant, a further
    property [P], and a state grown from the one it started in. *)
Definition kept_by (pts : list CameraPoint) (dl : list (list Detector))
    (cbm : list bool) (P : LoopState → Prop) (st st' : LoopState) : Prop :=
  search_inv pts dl cbm st' ∧ P st' ∧ grows st st'.

(** The tests of the log whose detector is shortlisted for point [i]
    and holds it, oldest first. *)
Definition held_tests (pts : list CameraPoint) (dl : list (list Detector))
    (i : nat) (log : list TestEvent) : list TestEvent :=
  List.filter (fun ev => hits pts dl (ev_detector ev) i) log.

(** A point that may be on several chips has gathered the names of
    the tests that held it, in the order of the tests. *)
Definition multi_in_test_order (pts : list CameraPoint)
    (dl : list (list Detector)) (cbm : list bool) (st : LoopState) : Prop :=
  ∀ i s, cbm !! i = Some true → outputNameList st !! i = Some s →
    slot_names s
    = map (fun ev => getName (ev_detector ev)) (held_tests pts dl i (tests st)).

(** The state the search starts from. *)
Definition initial_state (n : nat) : LoopState :=
  mkLoopState (replicate n SNone) (replicate n (-1)%Z) [] [].

End MoreSearchVocabulary.

(** Point [i] may be on several chips: what lines 118-123 leave in
    [could_be_multiple[i]]. *)
Definition eligible (dl : list (list Detector)) (allow : bool) (i : nat)
  : bool :=
  match dl !! i with
  | Some dets => allow && existsb is_wavefront dets
  | None => false
  end.

(** [chip_has_found] against [outputNameList], [cbm] saying which
    points may be on several chips: such a point is marked unfound;
    another is marked unfound with nothing recorded, or found with one
    name recorded. *)
Definition marks_by (cbm : list bool) (found : list Z) (output : list Slot)
  : Prop :=
  length found = length cbm
  ∧ (∀ i, cbm !! i = Some false →
       (found !! i = Some (-1)%Z ∧ output !! i = Some SNone)
       ∨ (found !! i = Some 1%Z ∧ ∃ name, output !! i = Some (SStr name)))
  ∧ (∀ i, cbm !! i = Some true → found !! i = Some (-1)%Z).

(** Only points that cannot be on several chips are ever marked found:
    a mark is -1 or 1; at 1 the point is not eligible and has one name
    recorded; at -1 a point that is not eligible has nothing recorded. *)
Definition marks_only_single (dl : list (list Detector)) (allow : bool)
    (found : list Z) (output : list Slot) : Prop :=
  ∀ i v, found !! i = Some v →
    (v = (-1)%Z ∧ (eligible dl allow i = false → output !! i = Some SNone))
    ∨ (v = 1%Z ∧ eligible dl allow i = false
       ∧ ∃ name, output !! i = Some (SStr name)).

(** The names of the detectors tested, oldest first. *)
Definition tested_names (st : LoopState) : list string :=
  map (fun ev => getName (ev_detector ev)) (tests st).

(** Between two visits: once every point is marked found, the last
    name checked is that of the last detector tested. *)
Definition last_checked_tested (st : LoopState) : Prop :=
  (∀ i, unfound_at (chip_has_found st) i = false) →
  last (checked_detectors st) = last (tested_names st).

(** At the [return] of line 135: one name was checked after the last
    detector tested. *)
Definition returned_at_check (st : LoopState) : Prop :=
  ∃ pre name, checked_detectors st = pre ++ [name]
              ∧ last pre = last (tested_names st).

(** The snapshots of the log have their marks as [marks_by] says. *)
Definition snapshots_marked (cbm : list bool) (st : LoopState) : Prop :=
  ∀ ev, ev ∈ tests st → marks_by cbm (ev_found ev) (ev_output ev).

(** The search stops at once when every point is marked found: in the
    state [st] it returns from, if every point is marked found then at
    most one name was checked after the last detector tested, and only
    by the [return] of line 135. *)
Definition stopped_at_once (f : Flow LoopState) (st : LoopState) : Prop :=
  (∀ i, unfound_at (chip_has_found st) i = false) →
  ∃ pre rest,
    checked_detectors st = pre ++ rest
    ∧ last pre = last (tested_names st)
    ∧ (length rest ≤ 1)%nat
    ∧ (rest ≠ [] → f = Return st).

(** The shortlists as the exact quotient would give them: the detector
    a footprint names is in the shortlist of a point if and only if the
    distance from the point to the centre, divided by the radius, is
    below 1.1, all three as real numbers. *)
Definition shortlists_by_exact_ratio `{L : LsstSim} (m : PupilCoordMap)
    (points : list (R * R)) : Prop :=
  ∃ rows,
    valid_detectors_of m points = Ok rows
    ∧ ∀ k xx yy ii name cx cy dp d,
        points !! k = Some (xx, yy) →
        map_name m !! ii = Some name → map_xx m !! ii = Some cx →
        map_yy m !! ii = Some cy → map_dp m !! ii = Some dp →
        camera_getitem name = Ok d →
        ∃ row, rows !! k = Some row
               ∧ (d ∈ row ↔ (distance (xx, yy) (cx, cy) / dp < 1.1)%R).

(** The map of the globals, when there is one, is well formed. *)
Definition globals_ok `{L : LsstSim} (g : Globals) : Prop :=
  match _lsst_pupil_coord_map g with
  | None => True
  | Some m => map_ok m
  end.

(** ** Loops and array helpers *)

Close Scope string_scope.

Lemma for_each_app {A S : Type} (body : A → S → Flow S) (l1 l2 : list A) (s : S) :
  for_each body (l1 ++ l2) s =
  match for_each body l1 s with
  | Next s' => for_each body l2 s'
  | r => r
  end.
Proof.
  revert s. induction l1 as [|a l1 IH]; intros s; simpl; [done|].
  destruct (body a s); auto.
Qed.

(** Invariant rule for a loop: [I pre s] holds after the iterations on
    [pre]; a [return] establishes [R]; nothing raises. *)
Lemma for_each_rule {A S : Type} (body : A → S → Flow S)
    (I : list A → S → Prop) (R : S → Prop) (l : list A) (s : S) :
  I [] s →
  (∀ pre a suf s, l = pre ++ a :: suf → I pre s →
     match body a s with
     | Next s' => I (pre ++ [a]) s'
     | Return s' => R s'
     | Raised _ => False
     end) →
  match for_each body l s with
  | Next s' => I l s'
  | Return s' => R s'
  | Raised _ => False
  end.
Proof.
  intros H0 Hstep.
  assert (Hgen : ∀ suf pre s, l = pre ++ suf → I pre s →
            match for_each body suf s with
            | Next s' => I l s'
            | Return s' => R s'
            | Raised _ => False
            end).
  { induction suf as [|a suf IH]; intros pre s1 Hl HI; simpl.
    - rewrite app_nil_r in Hl. by subst.
    - specialize (Hstep pre a suf s1 Hl HI).
      destruct (body a s1) as [s2| |]; try done.
      apply (IH (pre ++ [a])); [|done].
      by rewrite <- app_assoc. }
  by apply (Hgen l []).
Qed.

Lemma where_from_spec {A : Type} (P : A → bool) (a : list A) (k i : nat) :
  i ∈ where_from P k a ↔ ∃ x, k ≤ i ∧ a !! (i - k) = Some x ∧ P x = true.
Proof.
  revert k. induction a as [|x a IH]; intros k; simpl.
  - split; [by intros ?%elem_of_nil | by intros (? & _ & ? & _)].
  - assert (Htail : i ∈ where_from P (S k) a ↔
              ∃ y, S k ≤ i ∧ (x :: a) !! (i - k) = Some y ∧ P y = true).
    { rewrite IH. split; intros (y & Hle & Hy & HP); exists y.
      - replace (i - k) with (S (i - S k)) by lia. done.
      - replace (i - k) with (S (i - S k)) in Hy by lia. done. }
    destruct (P x) eqn:HPx.
    + rewrite elem_of_cons, Htail. split.
      * intros [->|(y & ? & ? & ?)].
        -- exists x. by rewrite Nat.sub_diag.
        -- exists y. split; [lia|done].
      * intros (y & Hle & Hy & HPy).
        destruct (decide (i = k)) as [->|Hne]; [by left|right].
        exists y. split; [lia|done].
    + rewrite Htail. split.
      * intros (y & ? & ? & ?). exists y. split; [lia|done].
      * intros (y & Hle & Hy & HPy).
        destruct (decide (i = k)) as [->|Hne].
        -- rewrite Nat.sub_diag in Hy. simpl in Hy. congruence.
        -- exists y. split; [lia|done].
Qed.

Lemma where_from_NoDup {A : Type} (P : A → bool) (a : list A) (k : nat) :
  NoDup (where_from P k a).
Proof.
  revert k. induction a as [|x a IH]; intros k; simpl; [constructor|].
  destruct (P x); [|done].
  constructor; [|done].
  rewrite where_from_spec. intros (? & ? & _). lia.
Qed.

Lemma np_where_spec {A : Type} (P : A → bool) (a : list A) (i : nat) :
  i ∈ np_where P a ↔ ∃ x, a !! i = Some x ∧ P x = true.
Proof.
  unfold np_where. rewrite where_from_spec.
  rewrite Nat.sub_0_r. split.
  - intros (x & _ & ? & ?). eauto.
  - intros (x & ? & ?). exists x. split; [lia|done].
Qed.

Lemma np_where_unfound (found : list Z) (i : nat) :
  i ∈ np_where (fun v => (v <? 0)%Z) found ↔ unfound_at found i = true.
Proof.
  rewrite np_where_spec. unfold unfound_at.
  destruct (found !! i) as [v|]; split.
  - by intros (x & [= <-] & ?).
  - intros ?. eauto.
  - by intros (x & ? & _).
  - done.
Qed.

Lemma take_at_in_range {A : Type} (a : list A) (dexes : list nat) :
  (∀ i, i ∈ dexes → i < length a) → ∃ xs, take_at a dexes = Ok xs.
Proof.
  induction dexes as [|ii rest IH]; intros Hin; simpl; [eauto|].
  destruct (lookup_lt_is_Some_2 a ii) as [x ->].
  { apply Hin. by left. }
  destruct IH as [xs ->]; [|eauto].
  intros i ?. apply Hin. by right.
Qed.

Lemma valid_pt_dexes_of_spec (d : Detector) (dl : list (list Detector))
    (unfound : list nat) :
  (∀ i, i ∈ unfound → i < length dl) →
  valid_pt_dexes_of d dl unfound = Ok (filter (fun i => shortlisted dl d i) unfound).
Proof.
  induction unfound as [|ii rest IH]; intros Hin; [done|].
  destruct (lookup_lt_is_Some_2 dl ii) as [dets Hdets].
  { apply Hin. by left. }
  cbn [valid_pt_dexes_of]. rewrite Hdets.
  rewrite IH; [|intros i ?; apply Hin; by right].
  f_equal. rewrite filter_cons.
  assert (Hs : shortlisted dl d ii = bool_decide (d ∈ dets)).
  { unfold shortlisted. by rewrite Hdets. }
  rewrite Hs. destruct (bool_decide (d ∈ dets)).
  - rewrite decide_True; [done|]. exact I.
  - rewrite decide_False; [done|]. intros [].
Qed.

(** ** One detector tested on its batch of points *)

Section SearchSteps.
Context {CameraPoint : Type} `{G : CameraGeom CameraPoint}.
Implicit Types (d : Detector) (st : LoopState) (cbm : list bool).

Lemma record_hit_eq d cbm ix st b s :
  cbm !! ix = Some b → outputNameList st !! ix = Some s →
  record_hit d cbm ix st =
  Next (mkLoopState (<[ix:=hit_slot (getName d) b s]> (outputNameList st))
                    (if b then chip_has_found st
                     else <[ix:=1%Z]> (chip_has_found st))
                    (checked_detectors st) (tests st)).
Proof.
  intros Hb Hs. unfold record_hit. rewrite Hb.
  destruct b; [|done].
  rewrite Hs. by destruct s.
Qed.

(** The loop over [zip(valid_pt_dexes, detectorPointList)] is a loop
    over the indices. *)
Lemma zipped_loop d (native : list NativePoint) cbm valid :
  ∀ vl st, take_at native valid = Ok vl →
    for_each
      (fun '(ix, pt) st =>
         if boxContains d pt then record_hit d cbm ix st else Next st)
      (zip valid (map (detectorTransform d) vl)) st
    = for_each (hit_step d native cbm) valid st.
Proof.
  induction valid as [|ii rest IH]; intros vl st Htake; simpl in Htake.
  - by injection Htake as <-.
  - destruct (native !! ii) as [x|] eqn:Hx; [|done].
    destruct (take_at native rest) as [xs|] eqn:Hxs; [|done].
    injection Htake as <-. simpl.
    unfold hit_step at 1. rewrite Hx.
    destruct (boxContains d (detectorTransform d x)).
    + destruct (record_hit d cbm ii st); auto.
    + auto.
Qed.

Lemma test_detector_steps d (native : list NativePoint) cbm valid st :
  (∀ i, i ∈ valid → i < length native) →
  test_detector d native cbm valid st
  = for_each (hit_step d native cbm) valid (log_test d valid st).
Proof.
  intros Hin. unfold test_detector.
  destruct (take_at_in_range native valid Hin) as [vl Hvl].
  rewrite Hvl. by apply zipped_loop.
Qed.

(** What the loop of line 143 leaves behind, entry by entry. *)
Lemma hit_loop_effect (pts : list CameraPoint) d cbm n valid :
  length pts = n → length cbm = n → NoDup valid →
  ∀ st,
    (∀ i, i ∈ valid → i < n) →
    length (outputNameList st) = n → length (chip_has_found st) = n →
    ∃ st',
      for_each (hit_step d (map transformToNative pts) cbm) valid st = Next st'
      ∧ checked_detectors st' = checked_detectors st
      ∧ tests st' = tests st
      ∧ length (outputNameList st') = n
      ∧ length (chip_has_found st') = n
      ∧ (∀ i, outputNameList st' !! i =
              if bool_decide (i ∈ valid) && inside_at pts d i
              then hit_slot (getName d) (default false (cbm !! i))
                     <$> outputNameList st !! i
              else outputNameList st !! i)
      ∧ (∀ i, chip_has_found st' !! i =
              if bool_decide (i ∈ valid) && inside_at pts d i
                 && negb (default false (cbm !! i))
              then (fun _ => 1%Z) <$> chip_has_found st !! i
              else chip_has_found st !! i).
Proof.
  intros Hpts Hcbm Hnd. induction Hnd as [|ix rest Hnotin Hnd IH];
    intros st Hin Hout Hfound.
  - exists st. simpl. repeat split; try done.
  - assert (Hix : ix < n) by (apply Hin; by left).
    destruct (lookup_lt_is_Some_2 pts ix) as [p Hp]; [lia|].
    destruct (lookup_lt_is_Some_2 cbm ix) as [b Hb]; [lia|].
    destruct (lookup_lt_is_Some_2 (outputNameList st) ix) as [s Hs]; [lia|].
    destruct (lookup_lt_is_Some_2 (chip_has_found st) ix) as [v Hv]; [lia|].
    assert (Hside : inside_at pts d ix = inside d p).
    { unfold inside_at. by rewrite Hp. }
    simpl. unfold hit_step at 1.
    rewrite list_lookup_fmap, Hp. simpl. fold (inside d p).
    destruct (inside d p) eqn:Hinside.
    + rewrite (record_hit_eq d cbm ix st b s Hb Hs).
      set (st1 := mkLoopState _ _ _ _).
      destruct (IH st1) as (st' & Hrun & Hck & Hlog & Hlo & Hlf & Ho & Hf).
      { intros i ?. apply Hin. by right. }
      { subst st1; simpl. by rewrite length_insert. }
      { subst st1; simpl. destruct b; [done|]. by rewrite length_insert. }
      exists st'. rewrite Hrun. repeat split; try done.
      * intros i. rewrite Ho. subst st1; simpl.
        destruct (decide (i = ix)) as [->|Hne].
        -- rewrite (bool_decide_eq_false_2 (ix ∈ rest)) by done.
           rewrite (bool_decide_eq_true_2 (ix ∈ ix :: rest)) by (by left).
           rewrite Hside, Hb, Hs. simpl.
           rewrite list_lookup_insert_eq; [done|lia].
        -- rewrite list_lookup_insert_ne by done.
           rewrite (bool_decide_ext (i ∈ ix :: rest) (i ∈ rest)); [done|].
           rewrite elem_of_cons. intuition congruence.
      * intros i. rewrite Hf. subst st1; simpl.
        destruct (decide (i = ix)) as [->|Hne].
        -- rewrite (bool_decide_eq_false_2 (ix ∈ rest)) by done.
           rewrite (bool_decide_eq_true_2 (ix ∈ ix :: rest)) by (by left).
           rewrite Hside, Hb, Hv. simpl.
           destruct b; simpl; [done|].
           rewrite list_lookup_insert_eq; [done|lia].
        -- rewrite (bool_decide_ext (i ∈ ix :: rest) (i ∈ rest));
             [|rewrite elem_of_cons; intuition congruence].
           destruct b; [done|]. rewrite list_lookup_insert_ne; done.
    + destruct (IH st) as (st' & Hrun & Hck & Hlog & Hlo & Hlf & Ho & Hf);
        [intros i ?; apply Hin; by right|done|done|].
      exists st'. rewrite Hrun. repeat split; try done.
      * intros i. rewrite Ho.
        destruct (decide (i = ix)) as [->|Hne].
        -- rewrite (bool_decide_eq_false_2 (ix ∈ rest)) by done.
           rewrite Hside. by rewrite !andb_false_r.
        -- rewrite (bool_decide_ext (i ∈ ix :: rest) (i ∈ rest)); [done|].
           rewrite elem_of_cons. intuition congruence.
      * intros i. rewrite Hf.
        destruct (decide (i = ix)) as [->|Hne].
        -- rewrite (bool_decide_eq_false_2 (ix ∈ rest)) by done.
           rewrite Hside. by rewrite !andb_false_r.
        -- rewrite (bool_decide_ext (i ∈ ix :: rest) (i ∈ rest)); [done|].
           rewrite elem_of_cons. intuition congruence.
Qed.

End SearchSteps.


(** ** One visit of a detector *)

Section SearchVisit.
Context {CameraPoint : Type} `{G : CameraGeom CameraPoint}.
Variables (pts : list CameraPoint) (dl : list (list Detector)) (cbm : list bool).
Hypothesis dl_long : length pts ≤ length dl.
Hypothesis cbm_length : length cbm = length pts.
Implicit Types (d : Detector) (st : LoopState).

Lemma valid_of_spec d (found : list Z) i :
  i ∈ valid_of dl d found ↔
  unfound_at found i = true ∧ shortlisted dl d i = true.
Proof.
  unfold valid_of. rewrite list_elem_of_filter, np_where_unfound.
  rewrite Is_true_true. tauto.
Qed.

Lemma valid_of_NoDup d (found : list Z) : NoDup (valid_of dl d found).
Proof. apply NoDup_filter, where_from_NoDup. Qed.

Lemma valid_of_target d (found : list Z) i :
  bool_decide (i ∈ valid_of dl d found) && inside_at pts d i
  = target pts dl found d i.
Proof.
  unfold target, hits. rewrite andb_assoc. f_equal.
  apply eq_true_iff_eq. rewrite bool_decide_eq_true, valid_of_spec.
  by rewrite andb_true_iff.
Qed.

Lemma unfound_in_range (found : list Z) i :
  unfound_at found i = true → i < length found.
Proof.
  unfold unfound_at. destruct (found !! i) eqn:Hi; [|done].
  intros _. by eapply lookup_lt_Some.
Qed.

Lemma visit_detector_effect d st :
  length (outputNameList st) = length pts →
  length (chip_has_found st) = length pts →
  (getName d ∈ checked_detectors st
   ∧ visit_detector dl (map transformToNative pts) cbm d st = Next st)
  ∨ ((getName d ∉ checked_detectors st)
     ∧ (∀ i, unfound_at (chip_has_found st) i = false)
     ∧ (visit_detector dl (map transformToNative pts) cbm d st
        = Return (append_checked (getName d) st)))
  ∨ ((getName d ∉ checked_detectors st)
     ∧ (∃ i, unfound_at (chip_has_found st) i = true)
     ∧ ∃ st', (visit_detector dl (map transformToNative pts) cbm d st = Next st')
              ∧ visit_post pts dl cbm d st st').
Proof.
  intros Hout Hfound. unfold visit_detector.
  destruct (decide (getName d ∈ checked_detectors st)) as [Hin|Hnotin].
  { left. by rewrite bool_decide_eq_true_2. }
  right. rewrite bool_decide_eq_false_2 by done.
  cbn [append_checked chip_has_found].
  destruct (np_where (λ v : Z, (v <? 0)%Z) (chip_has_found st))
    as [|i0 unfound] eqn:Hwhere.
  { left. split; [done|]. split; [|done].
    intros i. apply not_true_is_false. rewrite <- np_where_unfound, Hwhere.
    apply not_elem_of_nil. }
  right. split; [done|]. split.
  { exists i0. apply np_where_unfound. rewrite Hwhere. by left. }
  cbn [length Nat.eqb]. rewrite <- Hwhere.
  rewrite valid_pt_dexes_of_spec; cycle 1.
  { intros i Hi%np_where_unfound%unfound_in_range. lia. }
  fold (valid_of dl d (chip_has_found st)).
  destruct (valid_of dl d (chip_has_found st)) as [|i1 valid] eqn:Hvalid.
  - eexists. split; [done|].
    assert (Hnone : ∀ i, target pts dl (chip_has_found st) d i = false).
    { intros i. rewrite <- valid_of_target, Hvalid.
      by rewrite bool_decide_eq_false_2 by apply not_elem_of_nil. }
    split; simpl; try done.
    + intros i. by rewrite Hnone.
    + intros i. by rewrite Hnone.
    + by rewrite Hvalid.
  - cbn [length Nat.ltb Nat.leb]. rewrite <- Hvalid.
    assert (Hrange : ∀ i, i ∈ valid_of dl d (chip_has_found st) → i < length pts).
    { intros i [Hi _]%valid_of_spec. apply unfound_in_range in Hi. lia. }
    rewrite test_detector_steps by (by rewrite length_map).
    destruct (hit_loop_effect pts d cbm (length pts)
                (valid_of dl d (chip_has_found st)) eq_refl cbm_length
                (valid_of_NoDup d _)
                (log_test d (valid_of dl d (chip_has_found st))
                   (mkLoopState (outputNameList st) (chip_has_found st)
                      (checked_detectors st ++ [getName d]) (tests st))))
      as (st' & Hrun & Hck & Hlog & Hlo & Hlf & Ho & Hf); try done.
    exists st'. split; [done|].
    split.
    + by rewrite Hck.
    + by rewrite Hlo.
    + by rewrite Hlf.
    + intros i. rewrite Ho. by rewrite valid_of_target.
    + intros i. rewrite Hf, valid_of_target. simpl.
      destruct (target pts dl (chip_has_found st) d i) eqn:Ht; [|done].
      destruct (negb (default false (cbm !! i))); [|done]. simpl.
      unfold target in Ht. apply andb_true_iff in Ht as [Hu _].
      unfold unfound_at in Hu. by destruct (chip_has_found st !! i).
    + rewrite Hlog. simpl. by rewrite Hvalid.
Qed.

End SearchVisit.


(** ** The invariant of the search *)

Lemma slot_names_hit name (b : bool) s :
  slot_names (hit_slot name b s) = if b then slot_names s ++ [name] else [name].
Proof. destruct b; [|done]. by destruct s. Qed.

Lemma hit_slot_not_None name (b : bool) s : hit_slot name b s ≠ SNone.
Proof. destruct b; [|done]. by destruct s. Qed.

Lemma find_snoc {A : Type} (f : A → bool) (l : list A) (x : A) :
  List.find f (l ++ [x]) =
  match List.find f l with
  | Some y => Some y
  | None => if f x then Some x else None
  end.
Proof.
  induction l as [|a l IH]; simpl; [done|].
  by destruct (f a).
Qed.

Lemma grows_refl st : grows st st.
Proof. by split. Qed.

Lemma grows_trans st1 st2 st3 : grows st1 st2 → grows st2 st3 → grows st1 st3.
Proof. intros [H1 H2] [H3 H4]. split; auto. Qed.

Lemma visited_grows dl k st st' : grows st st' → visited dl k st → visited dl k st'.
Proof.
  intros [Hck Hout] Hv i dets d Hi Hdets Hd Hnone.
  apply Hck. eapply Hv; eauto.
Qed.

Section SearchInvariant.
Context {CameraPoint : Type} `{G : CameraGeom CameraPoint}.
Variables (pts : list CameraPoint) (dl : list (list Detector)) (cbm : list bool).
Hypothesis dl_long : length pts ≤ length dl.
Hypothesis cbm_length : length cbm = length pts.
Implicit Types (d : Detector) (st : LoopState).

Lemma unfound_is_minus_one st i :
  search_inv pts dl cbm st → unfound_at (chip_has_found st) i = true →
  chip_has_found st !! i = Some (-1)%Z.
Proof.
  intros Hinv Hu. pose proof (unfound_in_range _ _ Hu) as Hlt.
  rewrite (inv_found_length _ _ _ _ Hinv), <- cbm_length in Hlt.
  destruct (lookup_lt_is_Some_2 cbm i Hlt) as [[] Hb].
  - by apply (inv_multi _ _ _ _ Hinv).
  - destruct (inv_single _ _ _ _ Hinv i Hb) as [[? _]|[Hone _]]; [done|].
    unfold unfound_at in Hu. by rewrite Hone in Hu.
Qed.

Lemma single_unfound_iff st i :
  search_inv pts dl cbm st → cbm !! i = Some false →
  unfound_at (chip_has_found st) i = true ↔ outputNameList st !! i = Some SNone.
Proof.
  intros Hinv Hb. unfold unfound_at.
  destruct (inv_single _ _ _ _ Hinv i Hb) as [[-> ->]|[-> (name & ->)]];
    by vm_compute.
Qed.

Lemma search_inv_initial :
  search_inv pts dl cbm
    (mkLoopState (replicate (length pts) SNone)
                 (replicate (length pts) (-1)%Z) [] []).
Proof.
  split; simpl.
  - apply length_replicate.
  - apply length_replicate.
  - constructor.
  - intros i s name [-> _]%lookup_replicate Hin. by apply elem_of_nil in Hin.
  - intros i s [-> _]%lookup_replicate. constructor.
  - intros i Hb. left.
    apply lookup_lt_Some in Hb. rewrite cbm_length in Hb.
    by rewrite !lookup_replicate_2.
  - intros i Hb. apply lookup_lt_Some in Hb. rewrite cbm_length in Hb.
    by rewrite lookup_replicate_2.
  - intros ev Hin. by apply elem_of_nil in Hin.
  - constructor.
  - intros ev Hin. by apply elem_of_nil in Hin.
  - intros ev i Hin. by apply elem_of_nil in Hin.
  - intros i Hb. apply lookup_lt_Some in Hb. rewrite cbm_length in Hb.
    by rewrite lookup_replicate_2.
  - intros _ i d Hb _ Hin. by apply elem_of_nil in Hin.
  - intros ev i s Hin. by apply elem_of_nil in Hin.
Qed.

(** A detector's name is checked without a test when no point is left
    unfound (line 131). *)
Lemma search_inv_checked st name :
  search_inv pts dl cbm st → name ∉ checked_detectors st →
  (∀ i, unfound_at (chip_has_found st) i = false) →
  search_inv pts dl cbm (append_checked name st).
Proof.
  intros Hinv Hfresh Hall. destruct Hinv. split; simpl; try done.
  - apply NoDup_app. split; [done|]. split; [|apply NoDup_singleton].
    intros x Hx ->%list_elem_of_singleton. done.
  - intros i s nm Hs Hnm. destruct (inv_names0 i s nm Hs Hnm) as [? ?].
    split; [|done]. apply elem_of_app. by left.
  - intros ev Hev. apply elem_of_app. left. auto.
  - intros Hu i d Hb Hhit _ Hnone.
    destruct (inv_single0 i Hb) as [[Hf _]|[_ (nm & Hs)]]; [|congruence].
    specialize (Hall i). unfold unfound_at in Hall. by rewrite Hf in Hall.
Qed.

Lemma target_true st d i :
  target pts dl (chip_has_found st) d i = true →
  unfound_at (chip_has_found st) i = true ∧ hits pts dl d i = true.
Proof. unfold target. by rewrite andb_true_iff. Qed.

Lemma hits_shortlisted d i :
  hits pts dl d i = true → shortlisted dl d i = true.
Proof. unfold hits. rewrite andb_true_iff. tauto. Qed.

Lemma shortlisted_row d i :
  shortlisted dl d i = true → ∃ dets, dets ∈ dl ∧ d ∈ dets.
Proof.
  unfold shortlisted. destruct (dl !! i) as [dets|] eqn:Hrow; [|done].
  intros Hd%bool_decide_eq_true. exists dets. split; [|done].
  by eapply list_elem_of_lookup_2.
Qed.

(** The test of a detector not seen before keeps the invariant. *)
Lemma search_inv_visit d st st' :
  search_inv pts dl cbm st → getName d ∉ checked_detectors st →
  (∃ dets, dets ∈ dl ∧ d ∈ dets) →
  visit_post pts dl cbm d st st' →
  search_inv pts dl cbm st' ∧ grows st st'.
Proof.
  intros Hinv Hfresh Hrow [Hck Hlo Hlf Ho Hf Ht].
  pose proof Hinv as [Iol Ifl Ind Inm Isn Isg Iml Itc Itn Itu Its Ifi Ico Isl].
  assert (Hold : ∀ i s, outputNameList st !! i = Some s →
                        getName d ∉ slot_names s).
  { intros i s Hs Hin. by destruct (Inm i s _ Hs Hin). }
  split; [split|split].
  - by rewrite Hlo.
  - by rewrite Hlf.
  - rewrite Hck. apply NoDup_app. split; [done|]. split; [|apply NoDup_singleton].
    intros x Hx ->%list_elem_of_singleton. done.
  - intros i s' name Hs' Hname. rewrite Hck, elem_of_app. rewrite Ho in Hs'.
    destruct (target pts dl (chip_has_found st) d i) eqn:Htg.
    + apply fmap_Some in Hs' as (s & Hs & ->).
      apply target_true in Htg as [_ Hhit].
      assert (Hcase : name = getName d ∨ name ∈ slot_names s).
      { rewrite slot_names_hit in Hname.
        destruct (default false (cbm !! i)).
        - apply elem_of_app in Hname as [Hname|Hname]; [auto|].
          apply list_elem_of_singleton in Hname. auto.
        - apply list_elem_of_singleton in Hname. auto. }
      destruct Hcase as [->|Hin].
      * split; [right; by apply list_elem_of_singleton|eauto].
      * destruct (Inm i s name Hs Hin). auto.
    + destruct (Inm i s' name Hs' Hname). auto.
  - intros i s' Hs'. rewrite Ho in Hs'.
    destruct (target pts dl (chip_has_found st) d i); [|by eapply Isn].
    apply fmap_Some in Hs' as (s & Hs & ->).
    rewrite slot_names_hit. destruct (default false (cbm !! i)).
    + apply NoDup_app. split; [by eapply Isn|]. split; [|apply NoDup_singleton].
      intros x Hx ->%list_elem_of_singleton. by eapply Hold.
    + apply NoDup_singleton.
  - intros i Hb. rewrite Ho, Hf, Hb. simpl. rewrite andb_true_r.
    destruct (target pts dl (chip_has_found st) d i); [|by apply Isg].
    right. split; [done|].
    destruct (Isg i Hb) as [[_ ->]|[_ (nm & ->)]]; simpl; eauto.
  - intros i Hb. rewrite Hf, Hb. simpl. rewrite andb_false_r. by apply Iml.
  - intros ev Hev. rewrite Hck, elem_of_app. rewrite Ht in Hev.
    destruct (valid_of dl d (chip_has_found st)); [left; auto|].
    apply elem_of_app in Hev as [Hev|Hev]; [left; auto|].
    apply list_elem_of_singleton in Hev as ->.
    right. by apply list_elem_of_singleton.
  - rewrite Ht. destruct (valid_of dl d (chip_has_found st)); [done|].
    rewrite map_app. apply NoDup_app. split; [done|].
    split; [|apply NoDup_singleton].
    intros x Hx Hx'. simpl in Hx'. apply list_elem_of_singleton in Hx' as ->.
    apply list_elem_of_In, in_map_iff in Hx as (ev & Hname & Hev).
    apply list_elem_of_In, Itc in Hev. congruence.
  - intros ev Hev. rewrite Ht in Hev.
    destruct (valid_of dl d (chip_has_found st)) as [|i1 valid] eqn:Hvalid; [auto|].
    apply elem_of_app in Hev as [Hev|Hev]; [auto|].
    apply list_elem_of_singleton in Hev as ->.
    assert (Hi1 : i1 ∈ valid_of dl d (chip_has_found st)).
    { rewrite Hvalid. by left. }
    apply valid_of_spec in Hi1 as [Hu Hs].
    exists i1. simpl. split; [|split; [by left|]].
    { apply unfound_in_range in Hu. lia. }
    split; [|done]. by apply unfound_is_minus_one.
  - intros ev i Hev Hb Hfound. rewrite Ht in Hev.
    destruct (valid_of dl d (chip_has_found st)); [by eapply Its|].
    apply elem_of_app in Hev as [Hev|Hev]; [by eapply Its|].
    apply list_elem_of_singleton in Hev as ->.
    simpl in *. destruct (Isg i Hb) as [[_ ?]|[? _]]; [done|congruence].
  - intros i Hb. rewrite Ho, Hb. simpl.
    specialize (Ifi i Hb). unfold single_slot, first_containing_test in *.
    assert (Hu := single_unfound_iff st i Hinv Hb).
    destruct (valid_of dl d (chip_has_found st)) as [|i1 valid] eqn:Hvalid.
    + rewrite Ht. rewrite <- valid_of_target, Hvalid.
      by rewrite bool_decide_eq_false_2 by apply not_elem_of_nil.
    + rewrite Ht, find_snoc. unfold target.
      destruct (List.find _ (tests st)) as [ev|].
      * assert (unfound_at (chip_has_found st) i = false) as ->.
        { apply not_true_is_false. rewrite Hu, Ifi. done. }
        done.
      * assert (unfound_at (chip_has_found st) i = true) as ->.
        { by rewrite Hu. }
        simpl. destruct (hits pts dl d i); [|done]. by rewrite Ifi.
  - intros Huniq i d' Hb Hhit Hin. rewrite Hck, elem_of_app in Hin.
    rewrite Ho, Hb. simpl.
    destruct (target pts dl (chip_has_found st) d i) eqn:Htg.
    + destruct (Isg i Hb) as [[_ ->]|[_ (nm & ->)]]; done.
    + destruct Hin as [Hin|Hin%list_elem_of_singleton]; [by eapply Ico|].
      assert (d' = d) as ->.
      { destruct Hrow as (dets & Hdets & Hd).
        destruct (shortlisted_row d' i (hits_shortlisted _ _ Hhit))
          as (dets' & Hdets' & Hd').
        exact (Huniq dets' dets d' d Hdets' Hdets Hd' Hd Hin). }
      unfold target in Htg. rewrite Hhit, andb_true_r in Htg.
      rewrite <- (single_unfound_iff st i Hinv Hb). congruence.
  - intros ev i s Hev Hs. rewrite Ht in Hev.
    destruct (valid_of dl d (chip_has_found st)); [by eapply Isl|].
    apply elem_of_app in Hev as [Hev|Hev]; [by eapply Isl|].
    apply list_elem_of_singleton in Hev as ->. by eapply Isn.
  - intros name Hin. rewrite Hck, elem_of_app. by left.
  - intros i. rewrite Ho.
    destruct (target pts dl (chip_has_found st) d i); [|done].
    intros (s & _ & Hs)%fmap_Some. symmetry in Hs.
    by apply hit_slot_not_None in Hs.
Qed.

(** Whatever a visit does, it keeps the invariant; it goes on with the
    detector's name checked, or returns with every point found. *)
Lemma visit_detector_inv d st :
  search_inv pts dl cbm st → (∃ dets, dets ∈ dl ∧ d ∈ dets) →
  match visit_detector dl (map transformToNative pts) cbm d st with
  | Next st' =>
      search_inv pts dl cbm st' ∧ grows st st'
      ∧ getName d ∈ checked_detectors st'
  | Return st' =>
      search_inv pts dl cbm st'
      ∧ ∀ i, unfound_at (chip_has_found st') i = false
  | Raised _ => False
  end.
Proof.
  intros Hinv Hrow.
  destruct (visit_detector_effect pts dl cbm dl_long cbm_length d st
              (inv_output_length _ _ _ _ Hinv) (inv_found_length _ _ _ _ Hinv))
    as [[Hin ->]|[(Hfresh & Hall & ->)|(Hfresh & _ & st' & -> & Hpost)]].
  - split; [done|]. split; [apply grows_refl|done].
  - split; [by apply search_inv_checked|done].
  - destruct (search_inv_visit d st st' Hinv Hfresh Hrow Hpost) as [? ?].
    split; [done|]. split; [done|].
    rewrite (vp_checked _ _ _ _ _ _ Hpost), elem_of_app.
    right. by apply list_elem_of_singleton.
Qed.

(** The loop over the shortlist of point [k]. *)
Lemma visit_point_inv (k : nat) (np : NativePoint) st :
  search_inv pts dl cbm st → visited dl k st → k < length pts →
  match visit_point dl (map transformToNative pts) cbm (k, np) st with
  | Next st' => search_inv pts dl cbm st' ∧ visited dl (S k) st'
  | Return st' =>
      search_inv pts dl cbm st'
      ∧ ∀ i, unfound_at (chip_has_found st') i = false
  | Raised _ => False
  end.
Proof.
  intros Hinv Hvis Hk. unfold visit_point. cbn [fst].
  destruct (lookup_lt_is_Some_2 (outputNameList st) k) as [s Hs].
  { by rewrite (inv_output_length _ _ _ _ Hinv). }
  rewrite Hs.
  assert (Hdone : s ≠ SNone → search_inv pts dl cbm st ∧ visited dl (S k) st).
  { intros Hne. split; [done|]. intros i dets d Hi Hdets Hd Hnone.
    destruct (decide (i = k)) as [->|Hik]; [congruence|].
    eapply Hvis; eauto. lia. }
  destruct s as [|name|names]; [|by apply Hdone|by apply Hdone].
  destruct (lookup_lt_is_Some_2 dl k) as [dets Hdets]; [lia|].
  rewrite Hdets.
  assert (Hloop :
    match for_each (visit_detector dl (map transformToNative pts) cbm) dets st with
    | Next st' =>
        search_inv pts dl cbm st' ∧ grows st st'
        ∧ ∀ d, d ∈ dets → getName d ∈ checked_detectors st'
    | Return st' =>
        search_inv pts dl cbm st'
        ∧ ∀ i, unfound_at (chip_has_found st') i = false
    | Raised _ => False
    end).
  { apply (for_each_rule _
      (fun pre st' => search_inv pts dl cbm st' ∧ grows st st'
                      ∧ ∀ d, d ∈ pre → getName d ∈ checked_detectors st')).
    - split; [done|]. split; [apply grows_refl|].
      intros d Hd. by apply elem_of_nil in Hd.
    - intros pre d suf st1 Hsplit (Hinv1 & Hgrow1 & Hpre).
      assert (Hrow : ∃ row, row ∈ dl ∧ d ∈ row).
      { exists dets. split; [by eapply list_elem_of_lookup_2|].
        rewrite Hsplit, elem_of_app, elem_of_cons. auto. }
      pose proof (visit_detector_inv d st1 Hinv1 Hrow) as Hstep.
      destruct (visit_detector dl (map transformToNative pts) cbm d st1)
        as [st2| |]; try done.
      destruct Hstep as (Hinv2 & Hgrow2 & Hd2).
      split; [done|]. split; [by eapply grows_trans|].
      intros d' [Hd'|Hd']%elem_of_app.
      + apply Hgrow2. auto.
      + by apply list_elem_of_singleton in Hd' as ->. }
  destruct (for_each _ dets st) as [st'| |]; [|done|done].
  destruct Hloop as (Hinv' & Hgrow' & Hall). split; [done|].
  intros i row d Hi Hrow Hd Hnone.
  destruct (decide (i = k)) as [->|Hik].
  - apply Hall. congruence.
  - eapply (visited_grows dl k st st'); eauto. lia.
Qed.

Lemma enumerate_middle {A : Type} (l : list A) :
  ∀ k pre a suf,
    zip (seq k (length l)) l = pre ++ a :: suf →
    a.1 = k + length pre ∧ length pre < length l.
Proof.
  induction l as [|x l IH]; intros k pre a suf Hsplit; simpl in Hsplit.
  - by destruct pre.
  - destruct pre as [|p pre]; simpl in *.
    + injection Hsplit as <- _. simpl. lia.
    + injection Hsplit as _ Hsplit. apply IH in Hsplit. lia.
Qed.

(** The loop of line 125 over all the points. *)
Lemma visit_points_inv :
  match for_each (visit_point dl (map transformToNative pts) cbm)
                 (zip (seq 0 (length (map transformToNative pts)))
                      (map transformToNative pts))
                 (mkLoopState (replicate (length pts) SNone)
                              (replicate (length pts) (-1)%Z) [] []) with
  | Next st => search_inv pts dl cbm st ∧ visited dl (length pts) st
  | Return st =>
      search_inv pts dl cbm st ∧ ∀ i, unfound_at (chip_has_found st) i = false
  | Raised _ => False
  end.
Proof.
  pose proof (for_each_rule
    (visit_point dl (map transformToNative pts) cbm)
    (fun pre st => search_inv pts dl cbm st ∧ visited dl (length pre) st)
    (fun st => search_inv pts dl cbm st
               ∧ ∀ i, unfound_at (chip_has_found st) i = false)
    (zip (seq 0 (length (map transformToNative pts)))
         (map transformToNative pts))
    (mkLoopState (replicate (length pts) SNone)
                 (replicate (length pts) (-1)%Z) [] [])) as Hloop.
  cbv beta in Hloop.
  assert (Hlen : length (zip (seq 0 (length (map transformToNative pts)))
                             (map transformToNative pts)) = length pts).
  { by rewrite length_zip_with, length_seq, length_map, Nat.min_id. }
  rewrite Hlen in Hloop.
  apply Hloop; clear Hloop.
  - split; [apply search_inv_initial|]. intros i ? ? Hi. simpl in Hi. lia.
  - intros pre [k np] suf st Hsplit [Hinv Hvis].
    apply enumerate_middle in Hsplit as [Hk Hlt]. simpl in Hk. subst k.
    rewrite length_map in Hlt.
    pose proof (visit_point_inv (length pre) np st Hinv Hvis Hlt) as Hstep.
    destruct (visit_point _ _ _ _ st); try done.
    rewrite length_app. simpl. by rewrite Nat.add_1_r.
Qed.

End SearchInvariant.

(** ** The points that may be on several chips *)

Lemma mark_wavefront_loop (ipt : nat) (dets : list Detector) :
  ∀ c : list bool,
    for_each (fun det cbm =>
                if is_wavefront det then Next (<[ipt:=true]> cbm) else Next cbm)
             dets c
    = Next (if existsb is_wavefront dets then <[ipt:=true]> c else c).
Proof.
  induction dets as [|det dets IH]; intros c; simpl; [done|].
  destruct (is_wavefront det); simpl; rewrite IH; [|done].
  rewrite list_insert_insert_eq. by destruct (existsb is_wavefront dets).
Qed.

Lemma seq_middle (n : nat) :
  ∀ k pre a suf, seq k n = pre ++ a :: suf → a = k + length pre ∧ length pre < n.
Proof.
  induction n as [|n IH]; intros k pre a suf Hsplit; simpl in Hsplit.
  - by destruct pre.
  - destruct pre as [|p pre]; simpl in *.
    + injection Hsplit as <- _. lia.
    + injection Hsplit as _ Hsplit. apply IH in Hsplit. lia.
Qed.

Lemma could_be_multiple_spec (n : nat) (dl : list (list Detector)) (allow : bool) :
  n ≤ length dl →
  ∃ cbm, could_be_multiple_of n dl allow = Next cbm
         ∧ length cbm = n
         ∧ ∀ i dets, i < n → dl !! i = Some dets →
             cbm !! i = Some (allow && existsb is_wavefront dets).
Proof.
  intros Hn. unfold could_be_multiple_of. destruct allow; cycle 1.
  { exists (replicate n false). split; [done|]. split; [apply length_replicate|].
    intros i dets Hi _. by apply lookup_replicate_2. }
  assert (Hloop :
    match for_each (mark_could_be_multiple dl) (seq 0 n) (replicate n false) with
    | Next c =>
        length c = n
        ∧ (∀ i dets, i < length (seq 0 n) → dl !! i = Some dets →
             c !! i = Some (existsb is_wavefront dets))
        ∧ (∀ i, length (seq 0 n) ≤ i → i < n → c !! i = Some false)
    | Return _ => False
    | Raised _ => False
    end).
  { apply (for_each_rule _
      (fun pre c =>
         length c = n
         ∧ (∀ i dets, i < length pre → dl !! i = Some dets →
              c !! i = Some (existsb is_wavefront dets))
         ∧ (∀ i, length pre ≤ i → i < n → c !! i = Some false))).
    - split; [apply length_replicate|]. split.
      + intros i dets Hi. simpl in Hi. lia.
      + intros i _ Hi. by apply lookup_replicate_2.
    - intros pre ipt suf c Hsplit (Hlen & Hdone & Htodo).
      apply seq_middle in Hsplit as [-> Hlt]. simpl.
      unfold mark_could_be_multiple.
      destruct (lookup_lt_is_Some_2 dl (length pre)) as [dets Hdets]; [lia|].
      rewrite Hdets, mark_wavefront_loop.
      split; [|split].
      + destruct (existsb is_wavefront dets); [|done]. by rewrite length_insert.
      + intros i row Hi Hrow. rewrite length_app in Hi. simpl in Hi.
        destruct (decide (i = length pre)) as [->|Hne].
        * assert (row = dets) as -> by congruence.
          destruct (existsb is_wavefront dets).
          -- apply list_lookup_insert_eq. lia.
          -- apply Htodo; lia.
        * assert (c !! i = Some (existsb is_wavefront row)) as <-.
          { apply Hdone; [lia|done]. }
          destruct (existsb is_wavefront dets); [|done].
          by apply list_lookup_insert_ne.
      + intros i Hi Hin. rewrite length_app in Hi. simpl in Hi.
        assert (c !! i = Some false) as <- by (apply Htodo; lia).
        destruct (existsb is_wavefront dets); [|done].
        apply list_lookup_insert_ne. lia. }
  destruct (for_each _ (seq 0 n) (replicate n false)) as [c| |]; try done.
  destruct Hloop as (Hlen & Hdone & _). exists c. split; [done|]. split; [done|].
  intros i dets Hi Hrow. simpl. apply Hdone; [|done]. by rewrite length_seq.
Qed.

(** ** The search as a whole *)

Section SearchRuns.
Context {CameraPoint : Type} `{G : CameraGeom CameraPoint}.

(** With a shortlist for every point the search comes back, by the
    end of its loop or by the [return] of line 135, and in a state that
    satisfies the invariant. *)
Lemma search_runs (pts : list CameraPoint) (dl : list (list Detector))
    (allow : bool) :
  length pts ≤ length dl →
  ∃ cbm st,
    length cbm = length pts
    ∧ (∀ i dets, i < length pts → dl !! i = Some dets →
         cbm !! i = Some (allow && existsb is_wavefront dets))
    ∧ search_inv pts dl cbm st
    ∧ ((search pts dl allow = Next st ∧ visited dl (length pts) st)
       ∨ (search pts dl allow = Return st
          ∧ ∀ i, unfound_at (chip_has_found st) i = false)).
Proof.
  intros Hlen. unfold search.
  destruct (could_be_multiple_spec (length pts) dl allow Hlen)
    as (cbm & -> & Hcl & Hcbm).
  pose proof (visit_points_inv pts dl cbm Hlen Hcl) as Hloop.
  destruct (for_each _ _ _) as [st|st|]; [| |done].
  - exists cbm, st. destruct Hloop. eauto 10.
  - exists cbm, st. destruct Hloop. eauto 10.
Qed.

Lemma search_result (pts : list CameraPoint) (dl : list (list Detector))
    (allow : bool) (st : LoopState) :
  returns (search pts dl allow) st →
  _findDetectorsListLSST pts dl allow = Ok (map stringify (outputNameList st)).
Proof. unfold _findDetectorsListLSST. by intros [-> | ->]. Qed.

End SearchRuns.

(** ** What the search returns *)

Section SearchResults.
Context {CameraPoint : Type} `{G : CameraGeom CameraPoint}.
Implicit Types (pts : list CameraPoint) (dl : list (list Detector)).

(** A point that cannot be on several chips and is inside a detector
    of its shortlist does not stay at [None]. *)
Lemma single_point_found pts dl cbm st i d :
  search_inv pts dl cbm st → unique_names dl →
  (visited dl (length pts) st ∨ ∀ j, unfound_at (chip_has_found st) j = false) →
  i < length pts → cbm !! i = Some false → hits pts dl d i = true →
  outputNameList st !! i ≠ Some SNone.
Proof.
  intros Hinv Huniq Hend Hi Hb Hhit Hnone.
  destruct Hend as [Hvis|Hall].
  - apply hits_shortlisted in Hhit as Hshort. unfold shortlisted in Hshort.
    destruct (dl !! i) as [dets|] eqn:Hrow; [|done].
    apply bool_decide_eq_true in Hshort.
    pose proof (Hvis i dets d Hi Hrow Hshort Hnone) as Hchecked.
    by apply (inv_complete _ _ _ _ Hinv Huniq i d).
  - destruct (inv_single _ _ _ _ Hinv i Hb) as [[Hf _]|[_ (nm & Hs)]];
      [|congruence].
    specialize (Hall i). unfold unfound_at in Hall. by rewrite Hf in Hall.
Qed.

Lemma no_wavefront dets :
  (∀ d, d ∈ dets → getType d ≠ WAVEFRONT) → existsb is_wavefront dets = false.
Proof.
  intros Hnone. apply not_true_is_false. intros (d & Hd & Hw)%existsb_exists.
  apply bool_decide_eq_true in Hw. apply list_elem_of_In in Hd. by eapply Hnone.
Qed.


(** C10: the list of names a point gathers never holds a name twice:
    in the state the search returns from, and in every snapshot of
    [outputNameList] taken when a detector is tested, the names of each
    entry are pairwise distinct; so is the list behind each composite
    string of the result. *)
Theorem composite_names_distinct pts dl (allow : bool) :
  length pts ≤ length dl →
  ∃ st,
    returns (search pts dl allow) st
    ∧ _findDetectorsListLSST pts dl allow
      = Ok (map stringify (outputNameList st))
    ∧ (∀ i names, outputNameList st !! i = Some (SList names) → NoDup names)
    ∧ (∀ ev i names, ev ∈ tests st →
         ev_output ev !! i = Some (SList names) → NoDup names).
Proof.
  intros Hlen.
  destruct (search_runs pts dl allow Hlen) as (cbm & st & _ & _ & Hinv & Hend).
  assert (Hret : returns (search pts dl allow) st).
  { destruct Hend as [[? _]|[? _]]; [by left|by right]. }
  exists st. split; [done|]. split; [by apply search_result|]. split.
  - intros i names Hs. apply (inv_slot_NoDup _ _ _ _ Hinv i _ Hs).
  - intros ev i names Hev Hs. apply (inv_tests_slots _ _ _ _ Hinv ev i _ Hev Hs).
Qed.

(** A point that is not eligible for several chips ends with [None]
    or one name: the name of the oldest test whose detector is in its
    shortlist and holds it. *)
Lemma single_entry pts dl (allow : bool) i dets :
  length pts ≤ length dl → i < length pts → dl !! i = Some dets →
  allow && existsb is_wavefront dets = false →
  ∃ st names,
    returns (search pts dl allow) st
    ∧ _findDetectorsListLSST pts dl allow = Ok names
    ∧ outputNameList st !! i = Some (single_slot pts dl i (tests st))
    ∧ names !! i = Some (stringify (single_slot pts dl i (tests st)))
    ∧ (∀ l, outputNameList st !! i ≠ Some (SList l))
    ∧ (unique_names dl → ∀ d, hits pts dl d i = true →
         ∃ ev, first_containing_test pts dl i (tests st) = Some ev
               ∧ names !! i = Some (Some (getName (ev_detector ev)))).
Proof.
  intros Hlen Hi Hrow Hsingle.
  destruct (search_runs pts dl allow Hlen) as (cbm & st & Hcl & Hcbm & Hinv & Hend).
  assert (Hret : returns (search pts dl allow) st).
  { destruct Hend as [[? _]|[? _]]; [by left|by right]. }
  assert (Hb : cbm !! i = Some false).
  { by rewrite (Hcbm i dets Hi Hrow), Hsingle. }
  pose proof (inv_first _ _ _ _ Hinv i Hb) as Hfirst.
  assert (Hname : map stringify (outputNameList st) !! i
                  = Some (stringify (single_slot pts dl i (tests st)))).
  { by rewrite list_lookup_fmap, Hfirst. }
  exists st, (map stringify (outputNameList st)).
  split; [done|]. split; [by apply search_result|]. split; [done|].
  split; [done|]. split.
  - intros l. rewrite Hfirst. unfold single_slot.
    by destruct (first_containing_test pts dl i (tests st)).
  - intros Huniq d Hhit.
    assert (Hsome : outputNameList st !! i ≠ Some SNone).
    { apply (single_point_found pts dl cbm st i d); try done.
      destruct Hend as [[_ ?]|[_ ?]]; auto. }
    rewrite Hname. rewrite Hfirst in Hsome. unfold single_slot in *.
    destruct (first_containing_test pts dl i (tests st)) as [ev|]; [|done].
    by exists ev.
Qed.

(** X17: with [allow_multiple_chips] false a point inside detectors of
    its shortlist, wavefront or not, gets one name, the name of a
    detector of its shortlist that holds it. *)
Lemma one_name_without_allow pts dl i dets d :
  length pts ≤ length dl → i < length pts → dl !! i = Some dets →
  unique_names dl → hits pts dl d i = true →
  ∃ names d', _findDetectorsListLSST pts dl false = Ok names
              ∧ names !! i = Some (Some (getName d'))
              ∧ hits pts dl d' i = true.
Proof.
  intros Hlen Hi Hrow Huniq Hhit.
  destruct (single_entry pts dl false i dets Hlen Hi Hrow eq_refl)
    as (st & names & _ & Hrun & _ & _ & _ & Hfirst).
  destruct (Hfirst Huniq d Hhit) as (ev & Hev & Hname).
  exists names, (ev_detector ev). split; [done|]. split; [done|].
  unfold first_containing_test in Hev. by apply find_some in Hev as [_ ?].
Qed.

(** C5: a point whose shortlist holds no wavefront detector never gets
    a list of names, whatever [allow_multiple_chips] is: its entry is
    [None] or one name.  When a detector of its shortlist holds it (so
    when two do), its entry is the name of the first detector tested
    that is in its shortlist and holds it. *)
Theorem ordinary_point_single_name pts dl (allow : bool) i dets :
  length pts ≤ length dl → i < length pts → dl !! i = Some dets →
  (∀ d, d ∈ dets → getType d ≠ WAVEFRONT) →
  ∃ st names,
    returns (search pts dl allow) st
    ∧ _findDetectorsListLSST pts dl allow = Ok names
    ∧ outputNameList st !! i = Some (single_slot pts dl i (tests st))
    ∧ names !! i = Some (stringify (single_slot pts dl i (tests st)))
    ∧ (∀ l, outputNameList st !! i ≠ Some (SList l))
    ∧ (unique_names dl → ∀ d, hits pts dl d i = true →
         ∃ ev, first_containing_test pts dl i (tests st) = Some ev
               ∧ names !! i = Some (Some (getName (ev_detector ev)))).
Proof.
  intros Hlen Hi Hrow Hord.
  apply (single_entry pts dl allow i dets Hlen Hi Hrow).
  rewrite (no_wavefront dets Hord). apply andb_false_r.
Qed.

End SearchResults.


(** C10 at a point inside two wavefront detectors. *)
Lemma composite_names_distinct_witness :
  length [1] ≤ length [[W1; W2]]
  ∧ ∃ st,
      returns (@search _ toy [1] [[W1; W2]] true) st
      ∧ @_findDetectorsListLSST _ toy [1] [[W1; W2]] true
        = Ok (map (@stringify) (outputNameList st))
      ∧ (∀ i names, outputNameList st !! i = Some (SList names) → NoDup names)
      ∧ (∀ ev i names, ev ∈ tests st →
           ev_output ev !! i = Some (SList names) → NoDup names).
Proof.
  split; [simpl; lia|].
  apply (@composite_names_distinct _ toy [1] [[W1; W2]] true).
  simpl; lia.
Defined.

(** C2 as stated fails: the single point 1 is inside [W1] and may be on
    several chips; once [W1] is tested it has a recorded result, and
    [W2] is tested all the same. *)
Lemma tests_after_all_recorded :
  ¬ tests_only_with_unrecorded (@search _ toy [1] [[W1; W2]] true).
Proof.
  intros Hclaim.
  destruct (Hclaim
              (mkLoopState [SList [getName W1; getName W2]] [(-1)%Z]
                 [getName W1; getName W2]
                 [mkTestEvent W1 [0] [SNone] [(-1)%Z];
                  mkTestEvent W2 [0] [SStr (getName W1)] [(-1)%Z]])
              (mkTestEvent W2 [0] [SStr (getName W1)] [(-1)%Z]))
    as (i & Hi).
  - left. vm_compute. reflexivity.
  - right. left.
  - destruct i as [|i]; simpl in Hi; [discriminate|].
    destruct i; discriminate.
Qed.

Lemma toy_unique_names : unique_names [[O1; O2]; [W1; W2]].
Proof.
  intros dets dets' d d' Hdets Hdets' Hd Hd' Hname.
  repeat match goal with
         | H : _ ∈ _ :: _ |- _ => apply elem_of_cons in H as [->|H]
         | H : _ ∈ [] |- _ => by apply elem_of_nil in H
         end; try reflexivity; by vm_compute in Hname.
Qed.

(** C5 at point 2, inside the two ordinary detectors of its shortlist. *)
Lemma ordinary_point_single_name_witness :
  length [2; 1] ≤ length [[O1; O2]; [W1; W2]]
  ∧ unique_names [[O1; O2]; [W1; W2]]
  ∧ @hits _ toy [2; 1] [[O1; O2]; [W1; W2]] O1 0 = true
  ∧ @hits _ toy [2; 1] [[O1; O2]; [W1; W2]] O2 0 = true
  ∧ ∃ st names ev,
      returns (@search _ toy [2; 1] [[O1; O2]; [W1; W2]] true) st
      ∧ @_findDetectorsListLSST _ toy [2; 1] [[O1; O2]; [W1; W2]] true = Ok names
      ∧ (∀ l, outputNameList st !! 0 ≠ Some (SList l))
      ∧ @first_containing_test _ toy [2; 1] [[O1; O2]; [W1; W2]] 0 (tests st)
        = Some ev
      ∧ names !! 0 = Some (Some (getName (ev_detector ev))).
Proof.
  assert (Hlen : length [2; 1] ≤ length [[O1; O2]; [W1; W2]]) by (simpl; lia).
  assert (Hord : ∀ d, d ∈ [O1; O2] → getType d ≠ WAVEFRONT).
  { intros d Hd.
    apply elem_of_cons in Hd as [->|Hd]; [discriminate|].
    apply elem_of_cons in Hd as [->|Hd]; [discriminate|].
    by apply elem_of_nil in Hd. }
  split; [exact Hlen|]. split; [exact toy_unique_names|].
  split; [reflexivity|]. split; [reflexivity|].
  destruct (@ordinary_point_single_name _ toy [2; 1] [[O1; O2]; [W1; W2]] true
              0 [O1; O2] Hlen ltac:(simpl; lia) eq_refl Hord)
    as (st & names & Hret & Hrun & _ & _ & Hnolist & Hfirst).
  destruct (Hfirst toy_unique_names O1 eq_refl) as (ev & Hev & Hname).
  exists st, names, ev. split; [exact Hret|]. split; [exact Hrun|].
  split; [exact Hnolist|]. split; [exact Hev|exact Hname].
Defined.

(** C1 at its failing input: point 1 (index 1) is inside the boxes of
    the wavefront detectors [W1] and [W2], both in its shortlist, and
    [allow_multiple_chips] is true; the test of [W1], made for point 0,
    names it, line 126 then skips its shortlist, and [W2] is never
    tested: the result names [W1] alone. *)
Theorem second_wavefront_chip_missed :
  @inside _ toy W1 1 = true ∧ @inside _ toy W2 1 = true
  ∧ is_wavefront W1 = true ∧ is_wavefront W2 = true
  ∧ @_findDetectorsListLSST _ toy [0; 1] [[W1]; [W1; W2]] true
    = Ok [Some (getName W1); Some (getName W1)]
  ∧ @_findDetectorsListLSST _ toy [1] [[W1; W2]] true
    = Ok [Some (py_str_list [getName W1; getName W2])].
Proof. repeat split; vm_compute; reflexivity. Qed.

(** ** Building the map of bounding circles *)

Lemma flat_map_lookup4 {A B : Type} (f : A → list B) (l : list A) :
  (∀ x, x ∈ l → length (f x) = 4) →
  ∀ k x j, l !! k = Some x → j < 4 → flat_map f l !! (k * 4 + j) = f x !! j.
Proof.
  induction l as [|a l IH]; intros Hlen k x j Hk Hj; [done|].
  simpl. destruct k as [|k]; simpl in Hk.
  - injection Hk as ->. apply lookup_app_l. rewrite Hlen; [done|by left].
  - rewrite lookup_app_r by (rewrite Hlen; [lia|by left]).
    rewrite Hlen by (by left).
    replace (S k * 4 + j - 4) with (k * 4 + j) by lia.
    apply IH; [|done|done]. intros y Hy. apply Hlen. by right.
Qed.

Lemma take_at4 {A : Type} (a : list A) (ix : nat) (x0 x1 x2 x3 : A) :
  a !! (ix + 0) = Some x0 → a !! (ix + 1) = Some x1 →
  a !! (ix + 2) = Some x2 → a !! (ix + 3) = Some x3 →
  take_at a [ix; ix + 1; ix + 2; ix + 3] = Ok [x0; x1; x2; x3].
Proof.
  rewrite Nat.add_0_r. intros H0 H1 H2 H3. simpl.
  by rewrite H0, H1, H2, H3.
Qed.

Section BuildFacts.
Context `{L : LsstSim}.
Hypothesis four_corners : corners_ok.

Open Scope R_scope.

Lemma pupil_lookup (k : nat) (chip : Detector) (j : nat) :
  _lsst_camera !! k = Some chip → (j < 4)%nat →
  let pup := pupilCoordsFromPixelCoords (map fst corner_pixels)
                                        (map snd corner_pixels) corner_names in
  corner_names !! (k * 4 + j)%nat = Some (getName chip)
  ∧ pup.1 !! (k * 4 + j)%nat = fst <$> pupil_corners chip !! j
  ∧ pup.2 !! (k * 4 + j)%nat = snd <$> pupil_corners chip !! j.
Proof.
  intros Hk Hj.
  assert (Hchip : chip ∈ _lsst_camera) by (by eapply list_elem_of_lookup_2).
  pose proof (four_corners chip Hchip) as Hfour.
  destruct (lookup_lt_is_Some_2 (getCornerPixels (getName chip)) j) as [c Hc];
    [lia|].
  assert (Hname : corner_names !! (k * 4 + j)%nat = Some (getName chip)).
  { unfold corner_names.
    rewrite (flat_map_lookup4 _ _ (fun x Hx => eq_trans (length_map _ _)
                                       (four_corners x Hx)) k chip j Hk Hj).
    by rewrite list_lookup_fmap, Hc. }
  assert (Hpix : corner_pixels !! (k * 4 + j)%nat = Some c).
  { unfold corner_pixels.
    by rewrite (flat_map_lookup4 _ _ four_corners k chip j Hk Hj). }
  assert (Hpup : zip_with
            (fun xy name => pupilCoordsFromPixelCoords1 xy.1 xy.2 name)
            (zip (map fst corner_pixels) (map snd corner_pixels))
            corner_names !! (k * 4 + j)%nat
          = Some (pupilCoordsFromPixelCoords1 c.1 c.2 (getName chip))).
  { rewrite lookup_zip_with, lookup_zip_with, !list_lookup_fmap, Hpix, Hname.
    by destruct c. }
  split; [done|]. unfold pupilCoordsFromPixelCoords, pupil_corners. simpl.
  rewrite !list_lookup_fmap, Hpup, Hc. done.
Qed.

(** One turn of the loop of line 56 writes the centre and the mean
    corner distance of chip [k]. *)
Lemma footprint_step_eq (k : nat) (chip : Detector)
    (center_x center_y extent : list R) (final_name : list string) :
  _lsst_camera !! k = Some chip →
  let pup := pupilCoordsFromPixelCoords (map fst corner_pixels)
                                        (map snd corner_pixels) corner_names in
  let c := centre (pupil_corners chip) in
  footprint_step corner_names pup.1 pup.2 k
                 (center_x, center_y, extent, final_name)
  = Next (<[k:=c.1]> center_x, <[k:=c.2]> center_y,
          <[k:=mean_distance c (pupil_corners chip)]> extent,
          (final_name ++ [getName chip])%list).
Proof.
  intros Hk pup c.
  assert (Hchip : chip ∈ _lsst_camera) by (by eapply list_elem_of_lookup_2).
  pose proof (four_corners chip Hchip) as Hfour.
  assert (Hlen : length (pupil_corners chip) = 4%nat).
  { unfold pupil_corners. by rewrite length_map. }
  destruct (pupil_corners chip) as [|[x0 y0] [|[x1 y1] [|[x2 y2] [|[x3 y3] [|]]]]]
    eqn:Hpc; try done.
  destruct (pupil_lookup k chip 0 Hk ltac:(lia)) as (Hname & Hx0 & Hy0).
  destruct (pupil_lookup k chip 1 Hk ltac:(lia)) as (_ & Hx1 & Hy1).
  destruct (pupil_lookup k chip 2 Hk ltac:(lia)) as (_ & Hx2 & Hy2).
  destruct (pupil_lookup k chip 3 Hk ltac:(lia)) as (_ & Hx3 & Hy3).
  rewrite Hpc in Hx0, Hy0, Hx1, Hy1, Hx2, Hy2, Hx3, Hy3.
  simpl in Hx0, Hy0, Hx1, Hy1, Hx2, Hy2, Hx3, Hy3.
  rewrite Nat.add_0_r in Hname.
  unfold footprint_step. fold pup.
  rewrite Hname.
  rewrite (take_at4 pup.1 (k * 4) x0 x1 x2 x3 Hx0 Hx1 Hx2 Hx3).
  rewrite (take_at4 pup.2 (k * 4) y0 y1 y2 y3 Hy0 Hy1 Hy2 Hy3).
  assert (Hcx : 0.25 * (x0 + x1 + x2 + x3) = c.1).
  { subst c. unfold centre, mean, Rsum. simpl. lra. }
  assert (Hcy : 0.25 * (y0 + y1 + y2 + y3) = c.2).
  { subst c. unfold centre, mean, Rsum. simpl. lra. }
  rewrite Hcx, Hcy.
  assert (Hd : ∀ x y, sqrt ((c.1 - x) ^ 2 + (c.2 - y) ^ 2) = distance c (x, y)).
  { intros x y. unfold distance. simpl. by rewrite !Rsqr_pow2. }
  assert (Hdx :
    0.25 * np_sum (zip_with (fun x y => sqrt ((c.1 - x) ^ 2 + (c.2 - y) ^ 2))
                            [x0; x1; x2; x3] [y0; y1; y2; y3])
    = mean_distance c [(x0, y0); (x1, y1); (x2, y2); (x3, y3)]).
  { unfold mean_distance, mean, Rsum, np_sum.
    cbn [zip_with map fold_left fold_right length]. rewrite !Hd.
    simpl (INR _). lra. }
  by rewrite Hdx.
Qed.

(** The loop of line 56 fills the arrays chip by chip. *)
Lemma footprint_loop :
  let pup := pupilCoordsFromPixelCoords (map fst corner_pixels)
                                        (map snd corner_pixels) corner_names in
  let n := length _lsst_camera in
  ∃ center_x center_y extent,
    for_each (footprint_step corner_names pup.1 pup.2) (seq 0 n)
             (replicate n 0, replicate n 0, replicate n 0, [])
    = Next (center_x, center_y, extent, map getName _lsst_camera)
    ∧ length center_x = n ∧ length center_y = n ∧ length extent = n
    ∧ ∀ k chip, _lsst_camera !! k = Some chip →
        let c := centre (pupil_corners chip) in
        center_x !! k = Some c.1 ∧ center_y !! k = Some c.2
        ∧ extent !! k = Some (mean_distance c (pupil_corners chip)).
Proof.
  intros pup n.
  assert (Hloop :
    match for_each (footprint_step corner_names pup.1 pup.2) (seq 0 n)
                   (replicate n 0, replicate n 0, replicate n 0, []) with
    | Next acc => footprints_upto (seq 0 n) acc
    | Return _ => False
    | Raised _ => False
    end).
  { apply (for_each_rule _ footprints_upto).
    - unfold footprints_upto. rewrite !length_replicate.
      do 4 (split; [done|]). intros k chip Hk. simpl in Hk. lia.
    - intros pre a suf [[[cx1 cy1] ext1] fn1] Hsplit (Hx & Hy & He & Hfn & Hall).
      apply seq_middle in Hsplit as [Ha Hlt]. simpl in Ha. subst a pup.
      destruct (lookup_lt_is_Some_2 _lsst_camera (length pre) Hlt) as [chip Hchip].
      rewrite (footprint_step_eq (length pre) chip cx1 cy1 ext1 fn1 Hchip).
      unfold footprints_upto.
      rewrite !length_insert, length_app. cbn [length].
      do 3 (split; [done|]). split.
      + rewrite Nat.add_1_r, (take_S_r _ _ _ Hchip), map_app, Hfn. done.
      + intros k chip' Hk Hchip'.
        destruct (decide (k = length pre)) as [->|Hne].
        * assert (chip' = chip) as -> by congruence.
          fold n in Hlt.
          rewrite !list_lookup_insert_eq by lia. done.
        * rewrite !list_lookup_insert_ne by done. apply Hall; [lia|done]. }
  destruct (for_each _ (seq 0 n) _) as [[[[cx cy] ext] fn]| |]; try done.
  destruct Hloop as (Hx & Hy & He & Hfn & Hall).
  rewrite length_seq in Hfn, Hall. rewrite take_ge in Hfn by done.
  exists cx, cy, ext. rewrite Hfn. do 4 (split; [done|]).
  intros k chip Hchip. apply Hall; [by eapply lookup_lt_Some|done].
Qed.

(** A first build succeeds and writes one footprint per chip. *)
Lemma build_spec (g : Globals) :
  _lsst_pupil_coord_map g = None →
  ∃ m,
    _build_lsst_pupil_coord_map g
    = (mkGlobals (Some m) ((history g ++ [PixelsToPupil]) ++ [MapBuilt]), Ok tt)
    ∧ map_name m = map getName _lsst_camera
    ∧ length (map_xx m) = length _lsst_camera
    ∧ length (map_yy m) = length _lsst_camera
    ∧ length (map_dp m) = length _lsst_camera
    ∧ ∀ k chip, _lsst_camera !! k = Some chip →
        let c := centre (pupil_corners chip) in
        map_xx m !! k = Some c.1 ∧ map_yy m !! k = Some c.2
        ∧ map_dp m !! k = Some (mean_distance c (pupil_corners chip)).
Proof.
  intros Hnone.
  destruct footprint_loop as (cx & cy & ext & Hrun & Hx & Hy & He & Hall).
  exists (mkMap (map getName _lsst_camera) cx cy ext).
  split; [|done].
  unfold _build_lsst_pupil_coord_map, mbind, Py_bind, read_map.
  rewrite Hnone. cbn [note history _lsst_pupil_coord_map].
  destruct (pupilCoordsFromPixelCoords _ _ _) as [xs ys] eqn:Hpup.
  cbn [fst snd] in Hrun. rewrite Hrun. reflexivity.
Qed.


End BuildFacts.


(** ** The globals over a process *)

Lemma preserves_bind {A B : Type} (P : Globals → Prop) (m : Py A) (k : A → Py B) :
  preserves P m → (∀ a, preserves P (k a)) → preserves P (m ≫= k).
Proof.
  intros Hm Hk g Hg. unfold mbind, Py_bind.
  specialize (Hm g Hg). destruct (m g) as [g' [a|e]]; simpl in *; [|done].
  by apply Hk.
Qed.

Lemma preserves_pure {A : Type} (P : Globals → Prop) (m : Py A) :
  (∀ g, (m g).1 = g) → preserves P m.
Proof. intros Hm g Hg. by rewrite Hm. Qed.

Lemma builds_snoc (m : option PupilCoordMap) (h : list Effect) (e : Effect) :
  builds (mkGlobals m (h ++ [e]))
  = builds (mkGlobals m h) + (if decide (e = MapBuilt) then 1 else 0).
Proof.
  unfold builds. simpl. rewrite filter_app, length_app. f_equal.
  rewrite filter_cons, filter_nil. by destruct (decide (e = MapBuilt)).
Qed.

Lemma preserves_note (e : Effect) :
  e ≠ MapBuilt → preserves globals_inv (note e).
Proof.
  intros He [m h] Hg. unfold note, globals_inv in *. simpl in *.
  rewrite builds_snoc, decide_False by done. rewrite Nat.add_0_r.
  exact Hg.
Qed.

Section Process.
Context `{L : LsstSim}.

Lemma build_preserves : preserves globals_inv _build_lsst_pupil_coord_map.
Proof.
  intros [[m|] h] Hg; [exact Hg|].
  unfold _build_lsst_pupil_coord_map, mbind, Py_bind, read_map.
  cbn [_lsst_pupil_coord_map note history].
  destruct (pupilCoordsFromPixelCoords _ _ _) as [xs ys].
  assert (Hnote : ∀ m, builds (mkGlobals m (h ++ [PixelsToPupil])) = 0).
  { intros m. rewrite builds_snoc, decide_False by done.
    rewrite Nat.add_0_r. exact Hg. }
  destruct (for_each _ _ _) as [[[[cx cy] ext] fn]|[[[cx cy] ext] fn]|e];
    unfold write_map, py_raise, globals_inv; simpl.
  - by rewrite builds_snoc, Hnote, decide_True.
  - by rewrite builds_snoc, Hnote, decide_True.
  - apply Hnote.
Qed.

Lemma chipNameFromPupilCoordsLSST_preserves (x y : PyArg) (allow : bool) :
  preserves globals_inv (chipNameFromPupilCoordsLSST x y allow).
Proof.
  unfold chipNameFromPupilCoordsLSST.
  apply preserves_bind; [by apply preserves_pure|]. intros built.
  apply preserves_bind.
  { destruct built; [by apply preserves_pure|apply build_preserves]. }
  intros _. apply preserves_bind; [by apply preserves_pure|]. intros are_arrays.
  destruct are_arrays, x, y; try by apply preserves_pure.
  apply preserves_bind; [by apply preserves_pure|]. intros built'.
  destruct built'; [|by apply preserves_pure].
  apply preserves_bind; [by apply preserves_pure|]. intros rows.
  apply preserves_bind; [by apply preserves_note|]. intros _.
  by apply preserves_pure.
Qed.

Lemma _chipNameFromRaDecLSST_preserves (ra dec : PyArg)
    (obs : option ObservationMetaData) (epoch : option R) (allow : bool) :
  preserves globals_inv (_chipNameFromRaDecLSST ra dec obs epoch allow).
Proof.
  unfold _chipNameFromRaDecLSST.
  apply preserves_bind; [by apply preserves_pure|]. intros _.
  destruct epoch as [ep|]; [|by apply preserves_pure].
  destruct obs as [o|]; [|by apply preserves_pure].
  destruct (mjd o); [|by apply preserves_pure].
  destruct (rotSkyPos o); [|by apply preserves_pure].
  apply preserves_bind; [by apply preserves_note|]. intros _.
  apply preserves_bind; [by apply preserves_pure|]. intros xp_yp.
  apply chipNameFromPupilCoordsLSST_preserves.
Qed.

Lemma run_process_inv (calls : list ModuleCall) : globals_inv (run_process calls).
Proof.
  unfold run_process.
  induction calls as [|c calls IH] using rev_ind; [reflexivity|].
  rewrite fold_left_app. simpl.
  destruct c; simpl.
  - by apply build_preserves.
  - by apply chipNameFromPupilCoordsLSST_preserves.
  - by apply _chipNameFromRaDecLSST_preserves.
Qed.

(** C8: [_build_lsst_pupil_coord_map] called with the map already built
    raises its [RuntimeError] and leaves the globals as they are; and in
    a process, whatever the module's functions it calls and in whatever
    order, the map is assigned at most once. *)
Theorem build_at_most_once :
  (∀ m h,
     _build_lsst_pupil_coord_map (mkGlobals (Some m) h)
     = (mkGlobals (Some m) h,
        Raise (RuntimeError
                 "Calling _build_pupil_coord_map(), but it is already built.")))
  ∧ (∀ calls, builds (run_process calls) ≤ 1).
Proof.
  split; [reflexivity|].
  intros calls. pose proof (run_process_inv calls) as Hinv.
  unfold globals_inv in Hinv.
  destruct (_lsst_pupil_coord_map (run_process calls)); lia.
Qed.

(** C7: with the observation context absent, or without [mjd], or
    without [rotSkyPos], [_chipNameFromRaDecLSST] raises a
    [RuntimeError] and leaves the globals, with their record of the
    transforms made, untouched: no coordinate transform was attempted
    and no map was built. *)
Theorem incomplete_context_raises (ra dec : PyArg)
    (obs : option ObservationMetaData) (epoch : option R) (allow : bool)
    (g : Globals) :
  context_incomplete obs = true →
  ∃ msg, _chipNameFromRaDecLSST ra dec obs epoch allow g
         = (g, Raise (RuntimeError msg)).
Proof.
  intros Hobs. unfold _chipNameFromRaDecLSST, mbind, Py_bind, py_lift.
  destruct (_validate_inputs [ra; dec] ["ra"; "dec"]%string
                             "chipNameFromRaDecLSST"%string) as [b|e] eqn:Hval.
  - destruct epoch as [ep|]; [|by eexists].
    destruct obs as [o|]; [|by eexists].
    unfold context_incomplete in Hobs.
    destruct (mjd o); [|by eexists].
    destruct (rotSkyPos o); [done|by eexists].
  - unfold _validate_inputs in Hval.
    repeat match type of Hval with
           | (if ?c then _ else _) = _ => destruct c
           end; try discriminate; injection Hval as <-; by eexists.
Qed.

(** C9: a number passed as [xPupil] or as [yPupil] makes
    [chipNameFromPupilCoordsLSST] raise a [RuntimeError]. *)
Theorem scalar_pupil_coords_raise (x y : PyArg) (allow : bool) (g : Globals) :
  corners_ok → is_number x || is_number y = true →
  ∃ g' msg, chipNameFromPupilCoordsLSST x y allow g
            = (g', Raise (RuntimeError msg)).
Proof.
  intros Hok Hscalar.
  unfold chipNameFromPupilCoordsLSST, mbind, Py_bind, read_map.
  assert (Hbuilt : ∃ g',
    match _lsst_pupil_coord_map g with
    | Some _ => mret ()
    | None => _build_lsst_pupil_coord_map
    end g = (g', Ok tt)).
  { destruct (_lsst_pupil_coord_map g) eqn:Hmap; [by eexists|].
    destruct (build_spec Hok g Hmap) as (m & -> & _). by eexists. }
  destruct Hbuilt as [g' ->]. unfold py_lift.
  destruct x as [a|xs], y as [b|ys]; try done; simpl.
  - by eexists _, _.
  - by eexists _, _.
  - by eexists _, _.
Qed.

End Process.

(** C7 at a call without observation context. *)
Lemma incomplete_context_raises_witness :
  context_incomplete None = true
  ∧ ∃ msg, @_chipNameFromRaDecLSST two_chips (PyArray [0%R]) (PyArray [0%R])
             None (Some 2000%R) false initial_globals
           = (initial_globals, Raise (RuntimeError msg)).
Proof.
  split; [reflexivity|].
  apply (@incomplete_context_raises two_chips). reflexivity.
Defined.

(** C9 at two numbers, before any build. *)
Lemma scalar_pupil_coords_raise_witness :
  @corners_ok two_chips
  ∧ is_number (PyNumber 0%R) || is_number (PyNumber 0%R) = true
  ∧ ∃ g' msg, @chipNameFromPupilCoordsLSST two_chips (PyNumber 0%R)
                (PyNumber 0%R) false initial_globals
              = (g', Raise (RuntimeError msg)).
Proof.
  assert (Hok : @corners_ok two_chips) by (intros chip _; reflexivity).
  split; [exact Hok|]. split; [reflexivity|].
  apply (@scalar_pupil_coords_raise two_chips); [exact Hok|reflexivity].
Defined.

(** ** The shortlists *)

Section Shortlists.
Context `{L : LsstSim}.

Open Scope R_scope.

Lemma camera_getitem_Ok (name : string) (d : Detector) :
  camera_getitem name = Ok d → d ∈ _lsst_camera ∧ getName d = name.
Proof.
  unfold camera_getitem.
  destruct (find _ _lsst_camera) as [d'|] eqn:Hfind; [|done].
  intros [= <-]. apply find_some in Hfind as [Hin Hname].
  split; [by apply list_elem_of_In|by apply bool_decide_eq_true in Hname].
Qed.

Lemma camera_getitem_total (name : string) :
  (∃ d, d ∈ _lsst_camera ∧ getName d = name) →
  ∃ d, camera_getitem name = Ok d.
Proof.
  intros (d & Hin & Hname). unfold camera_getitem.
  destruct (find _ _lsst_camera) as [d'|] eqn:Hfind; [by eexists|].
  apply list_elem_of_In in Hin.
  pose proof (find_none _ _ Hfind d Hin) as Hno. simpl in Hno.
  by apply bool_decide_eq_false in Hno.
Qed.

Lemma possible_dexes_spec (m : PupilCoordMap) (xx yy : R) (ii : nat) :
  ii ∈ possible_dexes m xx yy ↔
  ∃ cx cy dp,
    map_xx m !! ii = Some cx ∧ map_yy m !! ii = Some cy
    ∧ map_dp m !! ii = Some dp
    ∧ np_less (np_distance_ratio (float64_of xx) (float64_of yy)
                                 (float64_of cx) (float64_of cy)
                                 (float64_of dp))
              margin = true.
Proof.
  unfold possible_dexes. rewrite np_where_spec. split.
  - intros ([[cx cy] dp] & Hlook & Hcond).
    rewrite !lookup_zip_with in Hlook.
    destruct (map_xx m !! ii) as [cx'|]; [|done].
    destruct (map_yy m !! ii) as [cy'|]; [|done].
    destruct (map_dp m !! ii) as [dp'|]; [|done].
    simpl in Hlook. injection Hlook as -> -> ->.
    exists cx, cy, dp. done.
  - intros (cx & cy & dp & Hx & Hy & Hd & Hlt).
    exists (cx, cy, dp). by rewrite !lookup_zip_with, Hx, Hy, Hd.
Qed.

Lemma local_valid_spec (m : PupilCoordMap) (dexes : list nat) :
  (∀ name, name ∈ map_name m → ∃ d, d ∈ _lsst_camera ∧ getName d = name) →
  (∀ ii, ii ∈ dexes → (ii < length (map_name m))%nat) →
  ∃ row, local_valid m dexes = Ok row
         ∧ ∀ d, d ∈ row ↔
                ∃ ii name, ii ∈ dexes ∧ map_name m !! ii = Some name
                           ∧ camera_getitem name = Ok d.
Proof.
  intros Hnames. induction dexes as [|ii rest IH]; intros Hrange; simpl.
  - exists []. split; [done|]. intros d. split.
    + by intros ?%elem_of_nil.
    + by intros (? & ? & ?%elem_of_nil & _).
  - destruct (lookup_lt_is_Some_2 (map_name m) ii) as [name Hname].
    { apply Hrange. by left. }
    rewrite Hname.
    destruct (camera_getitem_total name) as [d0 Hd0].
    { apply Hnames. by eapply list_elem_of_lookup_2. }
    rewrite Hd0.
    destruct IH as (row & -> & Hrow).
    { intros jj ?. apply Hrange. by right. }
    exists (d0 :: row). split; [done|]. intros d.
    rewrite elem_of_cons, Hrow. split.
    + intros [->|(jj & nm & Hjj & Hnm & Hd)].
      * exists ii, name. split; [by left|done].
      * exists jj, nm. split; [by right|done].
    + intros (jj & nm & [->|Hjj]%elem_of_cons & Hnm & Hd).
      * left. congruence.
      * right. eauto.
Qed.

Lemma valid_detectors_of_rows (m : PupilCoordMap) (points : list (R * R)) :
  map_ok m →
  ∃ rows, valid_detectors_of m points = Ok rows
          ∧ length rows = length points
          ∧ ∀ k xx yy, points !! k = Some (xx, yy) →
              ∃ row, rows !! k = Some row
                     ∧ local_valid m (possible_dexes m xx yy) = Ok row.
Proof.
  intros (Hx & Hy & Hd & Hnd & Hnames).
  induction points as [|[xx yy] points IH]; simpl.
  - exists []. split; [done|]. split; [done|]. by intros k ? ?.
  - destruct (local_valid_spec m (possible_dexes m xx yy) Hnames)
      as (row & Hrow & _).
    { intros ii (cx & _ & _ & Hcx & _)%possible_dexes_spec.
      apply lookup_lt_Some in Hcx. by rewrite <- Hx. }
    rewrite Hrow. destruct IH as (rows & -> & Hlen & Hall).
    exists (row :: rows). split; [done|]. split; [simpl; by rewrite Hlen|].
    intros [|k] xx' yy' Hk; simpl in *.
    + injection Hk as <- <-. eauto.
    + by apply Hall.
Qed.

(** C4, as amended: with a well-formed map (the map a build writes),
    the shortlists are computed, one per point, and the detector named
    by a footprint is in the shortlist of a point if and only if the
    quotient of the distance from the point to the footprint's centre by
    the footprint's radius, computed in float64 on the doubles that hold
    the coordinates (difference, square, sum, square root and quotient
    each rounded; [inf] or [nan] on overflow or at a zero radius),
    compares below the float64 constant 1.1. *)
Theorem shortlisted_iff_within_margin (m : PupilCoordMap)
    (points : list (R * R)) :
  map_ok m →
  ∃ rows,
    valid_detectors_of m points = Ok rows
    ∧ length rows = length points
    ∧ ∀ k xx yy ii name cx cy dp d,
        points !! k = Some (xx, yy) →
        map_name m !! ii = Some name → map_xx m !! ii = Some cx →
        map_yy m !! ii = Some cy → map_dp m !! ii = Some dp →
        camera_getitem name = Ok d →
        ∃ row, rows !! k = Some row
               ∧ (d ∈ row ↔
                  PrimFloat.ltb
                    (np_distance_ratio (float64_of xx) (float64_of yy)
                                       (float64_of cx) (float64_of cy)
                                       (float64_of dp))
                    margin = true).
Proof.
  intros Hok.
  destruct (valid_detectors_of_rows m points Hok) as (rows & Hrun & Hlen & Hall).
  destruct Hok as (Hx & Hy & Hd & Hnd & Hnames).
  exists rows. split; [done|]. split; [done|].
  intros k xx yy ii name cx cy dp d Hk Hname Hcx Hcy Hdp Hget.
  destruct (Hall k xx yy Hk) as (row & Hrow & Hlocal).
  exists row. split; [done|].
  destruct (local_valid_spec m (possible_dexes m xx yy) Hnames)
    as (row' & Hlocal' & Hmem).
  { intros jj (cx' & _ & _ & Hcx' & _)%possible_dexes_spec.
    apply lookup_lt_Some in Hcx'. by rewrite <- Hx. }
  assert (row' = row) as -> by congruence.
  rewrite Hmem. split.
  - intros (jj & nm & Hjj & Hnm & Hget').
    apply camera_getitem_Ok in Hget as [_ Hn], Hget' as [_ Hn'].
    assert (nm = name) as -> by congruence.
    assert (jj = ii) as -> by (by eapply NoDup_lookup).
    apply possible_dexes_spec in Hjj as (cx' & cy' & dp' & ? & ? & ? & Hlt).
    unfold np_less in Hlt. congruence.
  - intros Hlt. exists ii, name. split; [|done].
    apply possible_dexes_spec. exists cx, cy, dp. done.
Qed.

(** The map a first build writes is well formed when the camera names
    no two detectors alike. *)
Lemma built_map_ok (g : Globals) :
  corners_ok → NoDup (map getName _lsst_camera) →
  _lsst_pupil_coord_map g = None →
  ∃ g' m, _build_lsst_pupil_coord_map g = (g', Ok tt)
          ∧ _lsst_pupil_coord_map g' = Some m ∧ map_ok m.
Proof.
  intros Hok Hnd Hnone.
  destruct (build_spec Hok g Hnone) as (m & Hrun & Hname & Hx & Hy & Hd & _).
  eexists _, m. split; [exact Hrun|]. split; [done|].
  unfold map_ok. rewrite Hname, length_map. do 4 (split; [done|]).
  intros name (d & -> & Hd')%list_elem_of_fmap. eauto.
Qed.

End Shortlists.

Open Scope R_scope.

Lemma two_circles_ok : @map_ok two_chips two_circles.
Proof.
  unfold map_ok, two_circles. simpl. do 3 (split; [done|]). split.
  - apply NoDup_cons. split; [|apply NoDup_singleton].
    by intros ?%list_elem_of_singleton.
  - intros name [->|Hin]%elem_of_cons.
    + exists O1. split; [by left|done].
    + apply list_elem_of_singleton in Hin as ->.
      exists O2. split; [right; by left|done].
Qed.

Lemma Int_part_IZR (z : Z) : Int_part (IZR z) = z.
Proof. symmetry. apply Int_part_spec. lra. Qed.

Lemma float64_of_whole_IZR (z : Z) : float64_of_whole (IZR z) = float_of_Z z.
Proof. unfold float64_of_whole. by rewrite Int_part_IZR. Qed.

(** C4, amended, at the point (0, 0): it shortlists the first chip and
    not the second. *)
Lemma shortlisted_iff_within_margin_witness :
  @map_ok two_chips two_circles
  ∧ ∃ rows row,
      @valid_detectors_of two_chips two_circles [(0, 0)] = Ok rows
      ∧ rows !! 0%nat = Some row
      ∧ (O1 ∈ row ↔
         PrimFloat.ltb
           (np_distance_ratio (float_of_Z 0) (float_of_Z 0)
                              (float_of_Z 0) (float_of_Z 0) (float_of_Z 1))
           margin = true)
      ∧ O1 ∈ row ∧ O2 ∉ row.
Proof.
  split; [exact two_circles_ok|].
  destruct (@shortlisted_iff_within_margin two_chips two_circles [(0, 0)]
              two_circles_ok) as (rows & Hrun & _ & Hall).
  destruct (Hall 0%nat 0 0 0%nat (getName O1) 0 0 1 O1) as (row & Hrow & Hiff);
    try reflexivity.
  destruct (Hall 0%nat 0 0 1%nat (getName O2) 10 0 1 O2) as (row' & Hrow' & Hiff');
    try reflexivity.
  assert (row' = row) as -> by congruence.
  cbn [float64_of two_chips] in Hiff, Hiff'.
  rewrite !float64_of_whole_IZR in Hiff.
  rewrite !float64_of_whole_IZR in Hiff'.
  exists rows, row. do 3 (split; [done|]). split.
  - apply Hiff. vm_compute. reflexivity.
  - intros Hin%Hiff'. vm_compute in Hin. discriminate.
Defined.

(** C4 as stated fails: the point (72048008, 12004) is at less than 1.1
    times the radius from the centre of [wide_circle], and the chip is
    not in its shortlist, because in float64 the distance rounds to
    72048009 and the quotient to the double of 1.1. *)
Lemma shortlist_differs_from_exact_ratio :
  ¬ @shortlists_by_exact_ratio two_chips wide_circle [(72048008, 12004)].
Proof.
  intros (rows & Hrun & Hall).
  assert (Hfloat :
    np_less (np_distance_ratio (float_of_Z 72048008) (float_of_Z 12004)
                               (float_of_Z 0) (float_of_Z 0)
                               (float_of_Z 65498190))
            margin = false) by (vm_compute; reflexivity).
  unfold valid_detectors_of, possible_dexes, np_where in Hrun.
  cbn [wide_circle map_xx map_yy map_dp zip zip_with where_from
       float64_of two_chips] in Hrun.
  rewrite !float64_of_whole_IZR, Hfloat in Hrun.
  cbn [local_valid] in Hrun. injection Hrun as <-.
  destruct (Hall 0%nat 72048008 12004 0%nat (getName O1) 0 0 65498190 O1)
    as (row & Hrow & Hiff); try reflexivity.
  injection Hrow as <-.
  assert (Hin : O1 ∈ @nil Detector); [|by apply elem_of_nil in Hin].
  apply Hiff. unfold distance. cbn [fst snd].
  assert (Hsqrt : sqrt (Rsqr (72048008 - 0) + Rsqr (12004 - 0)) < 72048009).
  { apply Rsqr_incrst_0; [|apply sqrt_pos|lra].
    rewrite Rsqr_sqrt; unfold Rsqr; lra. }
  lra.
Qed.

Close Scope R_scope.

(** ** A rule for further invariants of the search *)

Section SearchRule.
Context {CameraPoint : Type} `{G : CameraGeom CameraPoint}.
Variables (pts : list CameraPoint) (dl : list (list Detector)) (cbm : list bool).
Hypothesis dl_long : length pts ≤ length dl.
Hypothesis cbm_length : length cbm = length pts.
Variable P : LoopState → Prop.
Hypothesis P_checked : ∀ st name,
  search_inv pts dl cbm st → P st → name ∉ checked_detectors st →
  (∀ i, unfound_at (chip_has_found st) i = false) →
  P (append_checked name st).
Hypothesis P_visit : ∀ d st st',
  search_inv pts dl cbm st → P st → getName d ∉ checked_detectors st →
  (∃ dets, dets ∈ dl ∧ d ∈ dets) →
  visit_post pts dl cbm d st st' → P st'.
Implicit Types (d : Detector) (st : LoopState).

Abbreviation kept := (kept_by pts dl cbm P).

Lemma append_checked_grows st name : grows st (append_checked name st).
Proof.
  split; [|done]. intros x Hx. simpl. apply elem_of_app. by left.
Qed.

Lemma visit_detector_rule d st :
  search_inv pts dl cbm st → P st → (∃ dets, dets ∈ dl ∧ d ∈ dets) →
  match visit_detector dl (map transformToNative pts) cbm d st with
  | Next st' => kept st st' ∧ getName d ∈ checked_detectors st'
  | Return st' =>
      kept st st' ∧ ∀ i, unfound_at (chip_has_found st') i = false
  | Raised _ => False
  end.
Proof.
  intros Hinv HP Hrow.
  destruct (visit_detector_effect pts dl cbm dl_long cbm_length d st
              (inv_output_length _ _ _ _ Hinv) (inv_found_length _ _ _ _ Hinv))
    as [[Hin ->]|[(Hfresh & Hall & ->)|(Hfresh & _ & st' & -> & Hpost)]].
  - split; [|done]. split; [done|]. split; [done|apply grows_refl].
  - split; [|done]. split; [eapply search_inv_checked; eauto|].
    split; [by apply P_checked|apply append_checked_grows].
  - destruct (search_inv_visit pts dl cbm dl_long cbm_length d st st'
                Hinv Hfresh Hrow Hpost) as [Hinv' Hgrow].
    split.
    + split; [done|]. split; [|done].
      exact (P_visit d st st' Hinv HP Hfresh Hrow Hpost).
    + rewrite (vp_checked _ _ _ _ _ _ Hpost), elem_of_app.
      right. by apply list_elem_of_singleton.
Qed.

Lemma shortlist_loop_rule (dets : list Detector) st :
  dets ∈ dl → search_inv pts dl cbm st → P st →
  match for_each (visit_detector dl (map transformToNative pts) cbm) dets st with
  | Next st' => kept st st' ∧ ∀ d, d ∈ dets → getName d ∈ checked_detectors st'
  | Return st' =>
      kept st st' ∧ ∀ i, unfound_at (chip_has_found st') i = false
  | Raised _ => False
  end.
Proof.
  intros Hdets Hinv HP.
  apply (for_each_rule _
    (fun pre st' => kept st st'
                    ∧ ∀ d, d ∈ pre → getName d ∈ checked_detectors st')
    (fun st' => kept st st'
                ∧ ∀ i, unfound_at (chip_has_found st') i = false)).
  - split; [split; [done|split; [done|apply grows_refl]]|].
    intros d Hd. by apply elem_of_nil in Hd.
  - intros pre d suf st1 Hsplit [(Hinv1 & HP1 & Hgrow1) Hpre].
    assert (Hrow : ∃ row, row ∈ dl ∧ d ∈ row).
    { exists dets. split; [done|].
      rewrite Hsplit, elem_of_app, elem_of_cons. auto. }
    pose proof (visit_detector_rule d st1 Hinv1 HP1 Hrow) as Hstep.
    destruct (visit_detector dl (map transformToNative pts) cbm d st1)
      as [st2|st2|]; [| |done].
    + destruct Hstep as [(Hinv2 & HP2 & Hgrow2) Hd2].
      split; [split; [done|split; [done|by eapply grows_trans]]|].
      intros d' [Hd'|Hd']%elem_of_app.
      * apply Hgrow2. auto.
      * by apply list_elem_of_singleton in Hd' as ->.
    + destruct Hstep as [(Hinv2 & HP2 & Hgrow2) Hall].
      split; [split; [done|split; [done|by eapply grows_trans]]|done].
Qed.

Lemma visit_point_rule (k : nat) (np : NativePoint) st :
  k < length pts → search_inv pts dl cbm st → P st →
  match visit_point dl (map transformToNative pts) cbm (k, np) st with
  | Next st' =>
      kept st st'
      ∧ (outputNameList st !! k = Some SNone →
         ∀ dets d, dl !! k = Some dets → d ∈ dets →
                   getName d ∈ checked_detectors st')
  | Return st' =>
      kept st st' ∧ ∀ i, unfound_at (chip_has_found st') i = false
  | Raised _ => False
  end.
Proof.
  intros Hk Hinv HP. unfold visit_point. cbn [fst].
  destruct (lookup_lt_is_Some_2 (outputNameList st) k) as [s Hs].
  { by rewrite (inv_output_length _ _ _ _ Hinv). }
  rewrite Hs.
  assert (Hskip : s ≠ SNone →
    kept st st
    ∧ (Some s = Some SNone →
       ∀ dets d, dl !! k = Some dets → d ∈ dets →
                 getName d ∈ checked_detectors st)).
  { intros Hne. split; [split; [done|split; [done|apply grows_refl]]|].
    intros [= ->]. done. }
  destruct s as [|name|names]; [|by apply Hskip|by apply Hskip].
  destruct (lookup_lt_is_Some_2 dl k) as [dets Hdets]; [lia|].
  rewrite Hdets.
  pose proof (shortlist_loop_rule dets st
                (list_elem_of_lookup_2 _ _ _ Hdets) Hinv HP) as Hloop.
  destruct (for_each _ dets st) as [st'|st'|]; [|done|done].
  destruct Hloop as [Hkept Hall]. split; [done|].
  intros _ dets' d Hdets' Hd. apply Hall. congruence.
Qed.

Lemma points_loop_rule (l : list (nat * NativePoint)) st :
  (∀ knp, knp ∈ l → knp.1 < length pts) →
  search_inv pts dl cbm st → P st →
  match for_each (visit_point dl (map transformToNative pts) cbm) l st with
  | Next st' => kept st st'
  | Return st' =>
      kept st st' ∧ ∀ i, unfound_at (chip_has_found st') i = false
  | Raised _ => False
  end.
Proof.
  intros Hrange Hinv HP.
  apply (for_each_rule _
    (fun _ st' => kept st st')
    (fun st' => kept st st'
                ∧ ∀ i, unfound_at (chip_has_found st') i = false)).
  - split; [done|]. split; [done|apply grows_refl].
  - intros pre [k np] suf st1 Hsplit (Hinv1 & HP1 & Hgrow1).
    assert (Hk : k < length pts).
    { apply (Hrange (k, np)). rewrite Hsplit, elem_of_app, elem_of_cons. auto. }
    pose proof (visit_point_rule k np st1 Hk Hinv1 HP1) as Hstep.
    destruct (visit_point _ _ _ _ st1) as [st2|st2|]; [| |done].
    + destruct Hstep as [(Hinv2 & HP2 & Hgrow2) _].
      split; [done|]. split; [done|by eapply grows_trans].
    + destruct Hstep as [(Hinv2 & HP2 & Hgrow2) Hall].
      split; [|done]. split; [done|]. split; [done|by eapply grows_trans].
Qed.

End SearchRule.

Lemma enumerate_in_range {A : Type} (l : list A) :
  ∀ (k : nat) (knp : nat * A),
    knp ∈ zip (seq k (length l)) l → knp.1 < k + length l.
Proof.
  induction l as [|x l IH]; intros k knp Hin; simpl in Hin.
  - by apply elem_of_nil in Hin.
  - apply elem_of_cons in Hin as [->|Hin]; simpl; [lia|].
    apply IH in Hin. lia.
Qed.

Section SearchKeeps.
Context {CameraPoint : Type} `{G : CameraGeom CameraPoint}.
Implicit Types (pts : list CameraPoint) (dl : list (list Detector)).

(** A property of the state that holds at the start and that each
    visit of a new detector keeps holds of the state the search returns
    from. *)
Lemma search_keeps pts dl (allow : bool) (P : list bool → LoopState → Prop) :
  length pts ≤ length dl →
  (∀ cbm, P cbm (initial_state (length pts))) →
  (∀ cbm st name,
     length cbm = length pts →
     search_inv pts dl cbm st → P cbm st → name ∉ checked_detectors st →
     (∀ i, unfound_at (chip_has_found st) i = false) →
     P cbm (append_checked name st)) →
  (∀ cbm d st st',
     length cbm = length pts →
     search_inv pts dl cbm st → P cbm st → getName d ∉ checked_detectors st →
     (∃ dets, dets ∈ dl ∧ d ∈ dets) →
     visit_post pts dl cbm d st st' → P cbm st') →
  ∃ cbm st,
    length cbm = length pts
    ∧ (∀ i dets, i < length pts → dl !! i = Some dets →
         cbm !! i = Some (allow && existsb is_wavefront dets))
    ∧ returns (search pts dl allow) st
    ∧ search_inv pts dl cbm st ∧ P cbm st.
Proof.
  intros Hlen Hinit Hchecked Hvisit. unfold search.
  destruct (could_be_multiple_spec (length pts) dl allow Hlen)
    as (cbm & -> & Hcl & Hcbm).
  pose proof (points_loop_rule pts dl cbm Hlen Hcl (P cbm)
                (fun st name => Hchecked cbm st name Hcl)
                (fun d st st' => Hvisit cbm d st st' Hcl)
                (zip (seq 0 (length (map transformToNative pts)))
                     (map transformToNative pts))
                (initial_state (length pts))) as Hloop.
  unfold initial_state in Hloop at 1.
  destruct (for_each _ _ _) as [st|st|].
  - destruct Hloop as (Hinv & HP & _).
    + intros knp Hin%enumerate_in_range. by rewrite length_map in Hin.
    + apply search_inv_initial; done.
    + apply Hinit.
    + exists cbm, st. split; [done|]. split; [done|]. split; [by left|done].
  - destruct Hloop as [(Hinv & HP & _) _].
    + intros knp Hin%enumerate_in_range. by rewrite length_map in Hin.
    + apply search_inv_initial; done.
    + apply Hinit.
    + exists cbm, st. split; [done|]. split; [done|]. split; [by right|done].
  - exfalso. apply Hloop.
    + intros knp Hin%enumerate_in_range. by rewrite length_map in Hin.
    + apply search_inv_initial; done.
    + apply Hinit.
Qed.

Lemma tests_batched_visit pts dl cbm d st st' :
  tests_batched dl st → visit_post pts dl cbm d st st' → tests_batched dl st'.
Proof.
  intros Hbatched Hpost ev Hev. rewrite (vp_tests _ _ _ _ _ _ Hpost) in Hev.
  destruct (valid_of dl d (chip_has_found st)) as [|i1 valid] eqn:Hvalid;
    [by apply Hbatched|].
  apply elem_of_app in Hev as [Hev|Hev]; [by apply Hbatched|].
  apply list_elem_of_singleton in Hev as ->. simpl. by rewrite Hvalid.
Qed.

Lemma eligible_stays_unfound pts dl cbm st i :
  search_inv pts dl cbm st → cbm !! i = Some true →
  unfound_at (chip_has_found st) i = true.
Proof.
  intros Hinv Hb. unfold unfound_at.
  by rewrite (inv_multi _ _ _ _ Hinv i Hb).
Qed.

Lemma multi_complete_checked pts dl cbm st name :
  search_inv pts dl cbm st →
  (∀ i, unfound_at (chip_has_found st) i = false) →
  multi_complete pts dl cbm (append_checked name st).
Proof.
  intros Hinv Hall i d Hb _ _.
  pose proof (eligible_stays_unfound pts dl cbm st i Hinv Hb) as Hu.
  by rewrite Hall in Hu.
Qed.

Lemma multi_complete_visit pts dl cbm d st st' :
  unique_names dl →
  search_inv pts dl cbm st → multi_complete pts dl cbm st →
  (∃ dets, dets ∈ dl ∧ d ∈ dets) →
  visit_post pts dl cbm d st st' → multi_complete pts dl cbm st'.
Proof.
  intros Huniq Hinv Hcomplete (dets & Hdets & Hd) Hpost i d' Hb Hhit Hin.
  rewrite (vp_checked _ _ _ _ _ _ Hpost), elem_of_app in Hin.
  rewrite (vp_output _ _ _ _ _ _ Hpost), Hb. simpl.
  pose proof (eligible_stays_unfound pts dl cbm st i Hinv Hb) as Hu.
  destruct Hin as [Hin|Hin%list_elem_of_singleton].
  - destruct (Hcomplete i d' Hb Hhit Hin) as (s & Hs & Hname).
    rewrite Hs. destruct (target pts dl (chip_has_found st) d i).
    + exists (hit_slot (getName d) true s). split; [done|].
      rewrite slot_names_hit, elem_of_app. by left.
    + eauto.
  - assert (d' = d) as ->.
    { unfold hits in Hhit. apply andb_true_iff in Hhit as [Hshort _].
      unfold shortlisted in Hshort.
      destruct (dl !! i) as [dets'|] eqn:Hrow; [|done].
      apply bool_decide_eq_true in Hshort.
      apply (Huniq dets' dets d' d); try done.
      by eapply list_elem_of_lookup_2. }
    unfold target. rewrite Hu, Hhit. simpl.
    destruct (lookup_lt_is_Some_2 (outputNameList st) i) as [s Hs].
    { rewrite (inv_output_length _ _ _ _ Hinv).
      rewrite <- (inv_found_length _ _ _ _ Hinv).
      by apply unfound_in_range. }
    rewrite Hs. exists (hit_slot (getName d) true s). split; [done|].
    rewrite slot_names_hit, elem_of_app. right.
    by apply list_elem_of_singleton.
Qed.

End SearchKeeps.

(** ** How the search ends *)

Section SearchEnds.
Context {CameraPoint : Type} `{G : CameraGeom CameraPoint}.
Variables (pts : list CameraPoint) (dl : list (list Detector)) (cbm : list bool).
Hypothesis dl_long : length pts ≤ length dl.
Hypothesis cbm_length : length cbm = length pts.
Variables P Q : LoopState → Prop.
Hypothesis Q_return : ∀ st name,
  search_inv pts dl cbm st → P st → name ∉ checked_detectors st →
  (∀ i, unfound_at (chip_has_found st) i = false) →
  Q (append_checked name st).
Hypothesis P_visit : ∀ d st st',
  search_inv pts dl cbm st → P st → getName d ∉ checked_detectors st →
  (∃ dets, dets ∈ dl ∧ d ∈ dets) →
  (∃ i, unfound_at (chip_has_found st) i = true) →
  visit_post pts dl cbm d st st' → P st'.
Implicit Types (d : Detector) (st : LoopState).

(** [P] holds between two visits and [Q] of the state line 135 returns
    from. *)
Lemma visit_detector_ends d st :
  search_inv pts dl cbm st → P st → (∃ dets, dets ∈ dl ∧ d ∈ dets) →
  match visit_detector dl (map transformToNative pts) cbm d st with
  | Next st' => search_inv pts dl cbm st' ∧ P st'
  | Return st' =>
      search_inv pts dl cbm st' ∧ Q st'
      ∧ ∀ i, unfound_at (chip_has_found st') i = false
  | Raised _ => False
  end.
Proof.
  intros Hinv HP Hrow.
  destruct (visit_detector_effect pts dl cbm dl_long cbm_length d st
              (inv_output_length _ _ _ _ Hinv) (inv_found_length _ _ _ _ Hinv))
    as [[Hin ->]|[(Hfresh & Hall & ->)|(Hfresh & Hsome & st' & -> & Hpost)]].
  - done.
  - split; [by apply search_inv_checked|]. split; [by apply Q_return|done].
  - destruct (search_inv_visit pts dl cbm dl_long cbm_length d st st'
                Hinv Hfresh Hrow Hpost) as [Hinv' _].
    split; [done|]. exact (P_visit d st st' Hinv HP Hfresh Hrow Hsome Hpost).
Qed.

Lemma shortlist_loop_ends (dets : list Detector) st :
  dets ∈ dl → search_inv pts dl cbm st → P st →
  match for_each (visit_detector dl (map transformToNative pts) cbm) dets st with
  | Next st' => search_inv pts dl cbm st' ∧ P st'
  | Return st' =>
      search_inv pts dl cbm st' ∧ Q st'
      ∧ ∀ i, unfound_at (chip_has_found st') i = false
  | Raised _ => False
  end.
Proof.
  intros Hdets Hinv HP.
  apply (for_each_rule _
    (fun _ st' => search_inv pts dl cbm st' ∧ P st')
    (fun st' => search_inv pts dl cbm st' ∧ Q st'
                ∧ ∀ i, unfound_at (chip_has_found st') i = false)); [done|].
  intros pre d suf st1 Hsplit [Hinv1 HP1].
  apply visit_detector_ends; [done|done|].
  exists dets. split; [done|]. rewrite Hsplit, elem_of_app, elem_of_cons. auto.
Qed.

Lemma visit_point_ends (k : nat) (np : NativePoint) st :
  k < length pts → search_inv pts dl cbm st → P st →
  match visit_point dl (map transformToNative pts) cbm (k, np) st with
  | Next st' => search_inv pts dl cbm st' ∧ P st'
  | Return st' =>
      search_inv pts dl cbm st' ∧ Q st'
      ∧ ∀ i, unfound_at (chip_has_found st') i = false
  | Raised _ => False
  end.
Proof.
  intros Hk Hinv HP. unfold visit_point. cbn [fst].
  destruct (lookup_lt_is_Some_2 (outputNameList st) k) as [s Hs].
  { by rewrite (inv_output_length _ _ _ _ Hinv). }
  rewrite Hs. destruct s as [|name|names]; [|done|done].
  destruct (lookup_lt_is_Some_2 dl k) as [dets Hdets]; [lia|].
  rewrite Hdets.
  apply shortlist_loop_ends; [|done|done]. by eapply list_elem_of_lookup_2.
Qed.

Lemma points_loop_ends (l : list (nat * NativePoint)) st :
  (∀ knp, knp ∈ l → knp.1 < length pts) →
  search_inv pts dl cbm st → P st →
  match for_each (visit_point dl (map transformToNative pts) cbm) l st with
  | Next st' => search_inv pts dl cbm st' ∧ P st'
  | Return st' =>
      search_inv pts dl cbm st' ∧ Q st'
      ∧ ∀ i, unfound_at (chip_has_found st') i = false
  | Raised _ => False
  end.
Proof.
  intros Hrange Hinv HP.
  apply (for_each_rule _
    (fun _ st' => search_inv pts dl cbm st' ∧ P st')
    (fun st' => search_inv pts dl cbm st' ∧ Q st'
                ∧ ∀ i, unfound_at (chip_has_found st') i = false)); [done|].
  intros pre [k np] suf st1 Hsplit [Hinv1 HP1].
  apply visit_point_ends; [|done|done].
  apply (Hrange (k, np)). rewrite Hsplit, elem_of_app, elem_of_cons. auto.
Qed.

End SearchEnds.

Section SearchStops.
Context {CameraPoint : Type} `{G : CameraGeom CameraPoint}.
Implicit Types (pts : list CameraPoint) (dl : list (list Detector)).

(** A property [P] that holds at the start and that each visit of a new
    detector keeps holds of the state the search falls out of its loop
    with; the state line 135 returns from has [Q], which [P] gives on
    checking one more name. *)
Lemma search_ends pts dl (allow : bool) (P Q : list bool → LoopState → Prop) :
  length pts ≤ length dl →
  (∀ cbm, P cbm (initial_state (length pts))) →
  (∀ cbm st name,
     length cbm = length pts →
     search_inv pts dl cbm st → P cbm st → name ∉ checked_detectors st →
     (∀ i, unfound_at (chip_has_found st) i = false) →
     Q cbm (append_checked name st)) →
  (∀ cbm d st st',
     length cbm = length pts →
     search_inv pts dl cbm st → P cbm st → getName d ∉ checked_detectors st →
     (∃ dets, dets ∈ dl ∧ d ∈ dets) →
     (∃ i, unfound_at (chip_has_found st) i = true) →
     visit_post pts dl cbm d st st' → P cbm st') →
  ∃ cbm st,
    length cbm = length pts
    ∧ (∀ i dets, i < length pts → dl !! i = Some dets →
         cbm !! i = Some (allow && existsb is_wavefront dets))
    ∧ search_inv pts dl cbm st
    ∧ ((search pts dl allow = Next st ∧ P cbm st)
       ∨ (search pts dl allow = Return st ∧ Q cbm st
          ∧ ∀ i, unfound_at (chip_has_found st) i = false)).
Proof.
  intros Hlen Hinit Hreturn Hvisit. unfold search.
  destruct (could_be_multiple_spec (length pts) dl allow Hlen)
    as (cbm & -> & Hcl & Hcbm).
  pose proof (points_loop_ends pts dl cbm Hlen Hcl (P cbm) (Q cbm)
                (fun st name => Hreturn cbm st name Hcl)
                (fun d st st' => Hvisit cbm d st st' Hcl)
                (zip (seq 0 (length (map transformToNative pts)))
                     (map transformToNative pts))
                (initial_state (length pts))) as Hloop.
  unfold initial_state in Hloop at 1.
  assert (Hrange : ∀ knp : nat * NativePoint,
            knp ∈ zip (seq 0 (length (map transformToNative pts)))
                      (map transformToNative pts) → knp.1 < length pts).
  { intros knp Hin%enumerate_in_range. by rewrite length_map in Hin. }
  assert (Hinv0 : search_inv pts dl cbm
                    (mkLoopState (replicate (length pts) SNone)
                                 (replicate (length pts) (-1)%Z) [] []))
    by (apply search_inv_initial; done).
  specialize (Hloop Hrange Hinv0 (Hinit cbm)).
  destruct (for_each _ _ _) as [st|st|]; [| |done].
  - exists cbm, st. destruct Hloop. eauto 10.
  - exists cbm, st. destruct Hloop as (? & ? & ?). eauto 10.
Qed.

(** Lines 128-135: with every point marked found, the visit of a
    detector not checked before returns at once, the name checked and
    nothing tested. *)
Lemma visit_detector_all_found dl (natives : list NativePoint) cbm d st :
  getName d ∉ checked_detectors st →
  (∀ i, unfound_at (chip_has_found st) i = false) →
  visit_detector dl natives cbm d st = Return (append_checked (getName d) st).
Proof.
  intros Hfresh Hall. unfold visit_detector.
  rewrite bool_decide_eq_false_2 by done.
  cbn [append_checked chip_has_found].
  destruct (np_where (λ v : Z, (v <? 0)%Z) (chip_has_found st))
    as [|i0 unfound] eqn:Hwhere; [done|].
  assert (Hi0 : unfound_at (chip_has_found st) i0 = true).
  { apply np_where_unfound. rewrite Hwhere. by left. }
  by rewrite Hall in Hi0.
Qed.

Lemma marks_by_inv pts dl cbm st :
  length cbm = length pts → search_inv pts dl cbm st →
  marks_by cbm (chip_has_found st) (outputNameList st).
Proof.
  intros Hcl Hinv. split; [by rewrite (inv_found_length _ _ _ _ Hinv)|].
  split; [apply (inv_single _ _ _ _ Hinv)|apply (inv_multi _ _ _ _ Hinv)].
Qed.

Lemma marks_by_eligible pts dl (allow : bool) cbm found output :
  length pts ≤ length dl → length cbm = length pts →
  (∀ i dets, i < length pts → dl !! i = Some dets →
     cbm !! i = Some (allow && existsb is_wavefront dets)) →
  marks_by cbm found output → marks_only_single dl allow found output.
Proof.
  intros Hlen Hcl Hcbm (Hfl & Hsingle & Hmulti) i v Hv.
  assert (Hi : i < length pts).
  { apply lookup_lt_Some in Hv. lia. }
  destruct (lookup_lt_is_Some_2 dl i) as [dets Hdets]; [lia|].
  pose proof (Hcbm i dets Hi Hdets) as Hb.
  unfold eligible. rewrite Hdets.
  destruct (allow && existsb is_wavefront dets).
  - left. specialize (Hmulti i Hb). split; [congruence|done].
  - destruct (Hsingle i Hb) as [[Hf Hs]|[Hf Hs]].
    + left. split; [congruence|done].
    + right. split; [congruence|done].
Qed.

Lemma last_checked_tested_visit pts dl cbm d st st' :
  (∃ i, unfound_at (chip_has_found st) i = true) →
  visit_post pts dl cbm d st st' → last_checked_tested st'.
Proof.
  intros (i & Hi) Hpost Hall. unfold tested_names.
  rewrite (vp_checked _ _ _ _ _ _ Hpost), (vp_tests _ _ _ _ _ _ Hpost).
  destruct (valid_of dl d (chip_has_found st)) as [|i1 valid] eqn:Hvalid.
  - exfalso. specialize (Hall i). unfold unfound_at in Hall, Hi.
    rewrite (vp_found _ _ _ _ _ _ Hpost) in Hall.
    rewrite <- (valid_of_target pts dl), Hvalid in Hall.
    rewrite bool_decide_eq_false_2 in Hall by apply not_elem_of_nil.
    simpl in Hall. by rewrite Hall in Hi.
  - rewrite map_app. cbn [map]. by rewrite !last_snoc.
Qed.

Lemma snapshots_marked_visit pts dl cbm d st st' :
  length cbm = length pts → search_inv pts dl cbm st →
  snapshots_marked cbm st → visit_post pts dl cbm d st st' →
  snapshots_marked cbm st'.
Proof.
  intros Hcl Hinv Hsnap Hpost ev Hev.
  rewrite (vp_tests _ _ _ _ _ _ Hpost) in Hev.
  destruct (valid_of dl d (chip_has_found st)) as [|i1 valid];
    [by apply Hsnap|].
  apply elem_of_app in Hev as [Hev|Hev]; [by apply Hsnap|].
  apply list_elem_of_singleton in Hev as ->. simpl.
  by eapply marks_by_inv.
Qed.

(** C2, as amended.  During one call no detector name is tested twice,
    and no detector is tested once every point is marked found in
    [chip_has_found]: every test is made while some point it is tested
    on is marked unfound.  With every point marked found, the visit of
    a detector not checked before returns at once (line 135) without
    testing it, so the state the search returns from has at most one
    name checked after the last detector tested.  Only points that
    cannot be on several chips are ever marked found, in the final
    state and at every test: a mark of 1 goes with one recorded name on
    such a point, and an eligible point stays at -1 whatever it has
    recorded, so it goes on being tested.  With [allow_multiple_chips]
    false, every point having a recorded result is every point being
    marked found, and every test is made while some point has no
    recorded result. *)
Theorem tests_once_and_while_unfound pts dl (allow : bool) :
  length pts ≤ length dl →
  (∀ cbm d s,
     getName d ∉ checked_detectors s →
     (∀ i, unfound_at (chip_has_found s) i = false) →
     visit_detector dl (map transformToNative pts) cbm d s
     = Return (append_checked (getName d) s))
  ∧ ∃ st,
      returns (search pts dl allow) st
      ∧ NoDup (map (fun ev => getName (ev_detector ev)) (tests st))
      ∧ (∀ ev, ev ∈ tests st →
           ∃ i, i ∈ ev_points ev ∧ ev_found ev !! i = Some (-1)%Z)
      ∧ (search pts dl allow = Return st →
         ∀ i, unfound_at (chip_has_found st) i = false)
      ∧ stopped_at_once (search pts dl allow) st
      ∧ marks_only_single dl allow (chip_has_found st) (outputNameList st)
      ∧ (∀ ev, ev ∈ tests st →
           marks_only_single dl allow (ev_found ev) (ev_output ev))
      ∧ (allow = false →
         (∀ i, outputNameList st !! i ≠ Some SNone) →
         ∀ i, unfound_at (chip_has_found st) i = false)
      ∧ (allow = false → tests_only_with_unrecorded (search pts dl allow)).
Proof.
  intros Hlen. split.
  { intros cbm d s. apply visit_detector_all_found. }
  destruct (search_ends pts dl allow
              (fun cbm st => last_checked_tested st ∧ snapshots_marked cbm st)
              (fun cbm st => returned_at_check st ∧ snapshots_marked cbm st)
              Hlen)
    as (cbm & st & Hcl & Hcbm & Hinv & Hend).
  { intros cbm. split; [by intros _|]. intros ev Hev. by apply elem_of_nil in Hev. }
  { intros cbm st name _ _ [Hlast Hsnap] _ Hall. split; [|done].
    exists (checked_detectors st), name. split; [done|]. by apply Hlast. }
  { intros cbm d st st' Hcl Hinv [_ Hsnap] _ _ Hsome Hpost. split.
    - by eapply last_checked_tested_visit.
    - by eapply snapshots_marked_visit. }
  assert (Hret : returns (search pts dl allow) st).
  { destruct Hend as [[? _]|[? _]]; [by left|by right]. }
  assert (Hsnap : snapshots_marked cbm st).
  { by destruct Hend as [[_ [_ ?]]|[_ [[_ ?] _]]]. }
  assert (Hmarks : marks_only_single dl allow (chip_has_found st)
                                     (outputNameList st)).
  { apply (marks_by_eligible pts dl allow cbm); try done.
    by apply (marks_by_inv pts dl). }
  exists st. split; [done|]. split; [apply (inv_tests_NoDup _ _ _ _ Hinv)|].
  split.
  { intros ev Hev.
    destruct (inv_tests_unfound _ _ _ _ Hinv ev Hev) as (i & _ & ? & ? & _).
    eauto. }
  split.
  { intros Hr. destruct Hend as [[Hn _]|[_ [_ Hall]]]; [congruence|done]. }
  split.
  { intros Hall. destruct Hend as [[Hn [Hlast _]]|[Hr [[(pre & name & Hck & Hpre) _] _]]].
    - exists (checked_detectors st), []. rewrite app_nil_r.
      split; [done|]. split; [by apply Hlast|]. split; [simpl; lia|done].
    - exists pre, [name]. split; [done|]. split; [done|]. split; [simpl; lia|done]. }
  split; [done|]. split.
  { intros ev Hev. apply (marks_by_eligible pts dl allow cbm); try done.
    by apply Hsnap. }
  split.
  { intros -> Hrec i. unfold unfound_at.
    destruct (chip_has_found st !! i) as [v|] eqn:Hv; [|done].
    destruct (Hmarks i v Hv) as [[-> Hnone]|[-> _]]; [|done].
    exfalso. apply (Hrec i), Hnone. unfold eligible. by destruct (dl !! i). }
  intros -> st' ev Hret' Hev.
  assert (st' = st) as ->.
  { destruct Hret as [Hr|Hr], Hret' as [Hr'|Hr']; congruence. }
  destruct (inv_tests_unfound _ _ _ _ Hinv ev Hev) as (i & Hi & _ & Hf & _).
  exists i. apply (inv_tests_snapshot _ _ _ _ Hinv ev i Hev); [|done].
  destruct (lookup_lt_is_Some_2 dl i) as [dets Hdets]; [lia|].
  by rewrite (Hcbm i dets Hi Hdets).
Qed.

End SearchStops.

(** C2, amended, at a point inside [O1] with [allow_multiple_chips]
    false: [O1] is tested and marks the point found, the visit of [O2]
    returns, and [W1] is never looked at. *)
Lemma tests_once_and_while_unfound_witness :
  length [2] ≤ length [[O1; O2; W1]]
  ∧ @search _ toy [2] [[O1; O2; W1]] false
    = Return (mkLoopState [SStr (getName O1)] [1%Z] [getName O1; getName O2]
                          [mkTestEvent O1 [0] [SNone] [(-1)%Z]])
  ∧ (∀ cbm d s,
       getName d ∉ checked_detectors s →
       (∀ i, unfound_at (chip_has_found s) i = false) →
       @visit_detector _ toy [[O1; O2; W1]] (map (@transformToNative _ toy) [2])
                       cbm d s
       = Return (append_checked (getName d) s))
  ∧ ∃ st,
      returns (@search _ toy [2] [[O1; O2; W1]] false) st
      ∧ NoDup (map (fun ev => getName (ev_detector ev)) (tests st))
      ∧ (∀ ev, ev ∈ tests st →
           ∃ i, i ∈ ev_points ev ∧ ev_found ev !! i = Some (-1)%Z)
      ∧ (@search _ toy [2] [[O1; O2; W1]] false = Return st →
         ∀ i, unfound_at (chip_has_found st) i = false)
      ∧ stopped_at_once (@search _ toy [2] [[O1; O2; W1]] false) st
      ∧ marks_only_single [[O1; O2; W1]] false
                          (chip_has_found st) (outputNameList st)
      ∧ (∀ ev, ev ∈ tests st →
           marks_only_single [[O1; O2; W1]] false (ev_found ev) (ev_output ev))
      ∧ ((∀ i, outputNameList st !! i ≠ Some SNone) →
         ∀ i, unfound_at (chip_has_found st) i = false)
      ∧ tests_only_with_unrecorded (@search _ toy [2] [[O1; O2; W1]] false).
Proof.
  assert (Hlen : length [2] ≤ length [[O1; O2; W1]]) by (simpl; lia).
  split; [exact Hlen|]. split; [vm_compute; reflexivity|].
  destruct (@tests_once_and_while_unfound _ toy [2] [[O1; O2; W1]] false Hlen)
    as (Hstep & st & Hret & Hnd & Hunfound & Hreturn & Hstop & Hmarks & Hsnap
        & Hrec & Hnone).
  split; [exact Hstep|].
  exists st. split; [exact Hret|]. split; [exact Hnd|].
  split; [exact Hunfound|]. split; [exact Hreturn|]. split; [exact Hstop|].
  split; [exact Hmarks|]. split; [exact Hsnap|].
  split; [apply Hrec; reflexivity|apply Hnone; reflexivity].
Defined.

(** ** Further properties of the search *)

Section SearchMore.
Context {CameraPoint : Type} `{G : CameraGeom CameraPoint}.
Implicit Types (pts : list CameraPoint) (dl : list (list Detector)).

(** X1: a detector is tested on exactly the points that are unfound at
    that moment and have it in their shortlist (line 136), and on at
    least one such point (line 137). *)
Theorem tested_on_unfound_shortlisters pts dl (allow : bool) :
  length pts ≤ length dl →
  ∃ st,
    returns (search pts dl allow) st
    ∧ ∀ ev, ev ∈ tests st →
        ev_points ev ≠ []
        ∧ ∀ i, i ∈ ev_points ev ↔
               unfound_at (ev_found ev) i = true
               ∧ shortlisted dl (ev_detector ev) i = true.
Proof.
  intros Hlen.
  destruct (search_keeps pts dl allow (fun _ st => tests_batched dl st) Hlen)
    as (cbm & st & _ & _ & Hret & Hinv & Hbatched).
  - intros _ ev Hev. by apply elem_of_nil in Hev.
  - intros cbm st name _ _ Hb _ _. exact Hb.
  - intros cbm d st st' _ _ Hb _ _ Hpost. by eapply tests_batched_visit.
  - exists st. split; [done|]. intros ev Hev. split.
    + destruct (inv_tests_unfound _ _ _ _ Hinv ev Hev) as (i & _ & Hi & _).
      intros Hnil. rewrite Hnil in Hi. by apply elem_of_nil in Hi.
    + intros i. rewrite (Hbatched ev Hev). apply valid_of_spec.
Qed.

(** X2: the entry of a point that is not eligible for several chips
    is [None] exactly when no detector of its shortlist holds it. *)
Theorem unnamed_iff_not_held pts dl (allow : bool) i dets :
  length pts ≤ length dl → i < length pts → dl !! i = Some dets →
  allow && existsb is_wavefront dets = false → unique_names dl →
  ∃ names,
    _findDetectorsListLSST pts dl allow = Ok names
    ∧ (names !! i = Some None ↔ ∀ d, hits pts dl d i = false).
Proof.
  intros Hlen Hi Hrow Hsingle Huniq.
  destruct (single_entry pts dl allow i dets Hlen Hi Hrow Hsingle)
    as (st & names & _ & Hrun & _ & Hname & _ & Hfirst).
  exists names. split; [done|]. split.
  - intros Hnone d. apply not_true_is_false. intros Hhit.
    destruct (Hfirst Huniq d Hhit) as (ev & _ & Hev). congruence.
  - intros Hno. rewrite Hname. unfold single_slot, first_containing_test.
    destruct (List.find _ (tests st)) as [ev|] eqn:Hfind; [|done].
    apply find_some in Hfind as [_ Hhit]. by rewrite Hno in Hhit.
Qed.

(** X3: when no shortlist holds a wavefront detector,
    [allow_multiple_chips] changes nothing. *)
Theorem allow_flag_without_wavefront pts dl :
  length pts ≤ length dl →
  (∀ i dets d, i < length pts → dl !! i = Some dets → d ∈ dets →
               getType d ≠ WAVEFRONT) →
  _findDetectorsListLSST pts dl true = _findDetectorsListLSST pts dl false.
Proof.
  intros Hlen Hord.
  destruct (could_be_multiple_spec (length pts) dl true Hlen)
    as (cbm & Hrun & Hcl & Hcbm).
  assert (Hfalse : cbm = replicate (length pts) false).
  { apply list_eq. intros i.
    destruct (decide (i < length pts)) as [Hi|Hi].
    - destruct (lookup_lt_is_Some_2 dl i) as [dets Hdets]; [lia|].
      rewrite (Hcbm i dets Hi Hdets), lookup_replicate_2 by done.
      rewrite no_wavefront; [done|]. intros d Hd. by eapply Hord.
    - rewrite !lookup_ge_None_2; [done| |]; rewrite ?length_replicate; lia. }
  unfold _findDetectorsListLSST, search. rewrite Hrun, Hfalse. done.
Qed.

Lemma search_first_point (p0 : CameraPoint) pts dl (allow : bool)
    (cbm : list bool) :
  could_be_multiple_of (length (p0 :: pts)) dl allow = Next cbm →
  search (p0 :: pts) dl allow =
  match visit_point dl (map transformToNative (p0 :: pts)) cbm
                    (0, transformToNative p0)
                    (initial_state (length (p0 :: pts))) with
  | Next st =>
      for_each (visit_point dl (map transformToNative (p0 :: pts)) cbm)
               (zip (seq 1 (length (map transformToNative pts)))
                    (map transformToNative pts)) st
  | r => r
  end.
Proof. intros Hrun. unfold search. rewrite Hrun. reflexivity. Qed.

(** X4: the first point of a batch, when it may be on several chips,
    gets the names of all the detectors of its shortlist that hold it,
    and no other name. *)
Theorem first_point_gets_every_chip (p0 : CameraPoint) pts dl dets0 :
  length (p0 :: pts) ≤ length dl → dl !! 0 = Some dets0 →
  unique_names dl → existsb is_wavefront dets0 = true →
  ∃ st names s,
    returns (search (p0 :: pts) dl true) st
    ∧ _findDetectorsListLSST (p0 :: pts) dl true = Ok names
    ∧ outputNameList st !! 0 = Some s
    ∧ names !! 0 = Some (stringify s)
    ∧ ∀ name, name ∈ slot_names s ↔
              ∃ d, d ∈ dets0 ∧ inside d p0 = true ∧ getName d = name.
Proof.
  intros Hlen Hrow Huniq Hwave.
  destruct (could_be_multiple_spec (length (p0 :: pts)) dl true Hlen)
    as (cbm & Hrun & Hcl & Hcbm).
  assert (Hb : cbm !! 0 = Some true).
  { rewrite (Hcbm 0 dets0 ltac:(simpl; lia) Hrow). by rewrite Hwave. }
  assert (Hnever : ∀ st, search_inv (p0 :: pts) dl cbm st →
            ¬ ∀ i, unfound_at (chip_has_found st) i = false).
  { intros st Hinv Hall.
    pose proof (eligible_stays_unfound _ _ _ _ 0 Hinv Hb) as Hu.
    by rewrite Hall in Hu. }
  assert (Hinit : multi_complete (p0 :: pts) dl cbm
                    (initial_state (length (p0 :: pts)))).
  { intros i d _ _ Hin. by apply elem_of_nil in Hin. }
  pose proof (visit_point_rule (p0 :: pts) dl cbm Hlen Hcl
    (multi_complete (p0 :: pts) dl cbm)
    (fun st name Hinv _ _ Hall =>
       multi_complete_checked _ _ _ st name Hinv Hall)
    (fun d st st' Hinv HP _ Hr Hpost =>
       multi_complete_visit _ _ _ d st st' Huniq Hinv HP Hr Hpost)
    0 (transformToNative p0) (initial_state (length (p0 :: pts)))
    ltac:(simpl; lia) (search_inv_initial _ _ _ Hcl) Hinit) as Hfirst.
  assert (Hsearch := search_first_point p0 pts dl true cbm Hrun).
  destruct (visit_point _ _ _ _ _) as [st1|st1|];
    [|destruct Hfirst as [(Hinv1 & _) Hall]; by apply Hnever in Hall|done].
  destruct Hfirst as [(Hinv1 & HP1 & Hgrow1) Hchecked1].
  pose proof (points_loop_rule (p0 :: pts) dl cbm Hlen Hcl
    (multi_complete (p0 :: pts) dl cbm)
    (fun st name Hinv _ _ Hall =>
       multi_complete_checked _ _ _ st name Hinv Hall)
    (fun d st st' Hinv HP _ Hr Hpost =>
       multi_complete_visit _ _ _ d st st' Huniq Hinv HP Hr Hpost)
    (zip (seq 1 (length (map transformToNative pts)))
         (map transformToNative pts)) st1) as Hrest.
  destruct (for_each _ _ st1) as [st|st|].
  - destruct Hrest as (Hinv & HP & Hgrow); [|done|done|].
    { intros knp Hin%enumerate_in_range. rewrite length_map in Hin.
      simpl. lia. }
    destruct (lookup_lt_is_Some_2 (outputNameList st) 0) as [s Hs].
    { rewrite (inv_output_length _ _ _ _ Hinv). simpl. lia. }
    exists st, (map stringify (outputNameList st)), s.
    split; [by left|]. split; [apply search_result; by left|].
    split; [done|]. split; [by rewrite list_lookup_fmap, Hs|].
    intros name. split.
    + intros Hname.
      destruct (inv_names _ _ _ _ Hinv 0 s name Hs Hname) as [_ (d & <- & Hhit)].
      exists d. unfold hits, shortlisted, inside_at in Hhit.
      rewrite Hrow in Hhit. simpl in Hhit.
      apply andb_true_iff in Hhit as [Hd%bool_decide_eq_true Hin]. done.
    + intros (d & Hd & Hin & <-).
      assert (Hhit : hits (p0 :: pts) dl d 0 = true).
      { unfold hits, shortlisted, inside_at. rewrite Hrow. simpl.
        by rewrite bool_decide_eq_true_2, Hin. }
      destruct (HP 0 d Hb Hhit) as (s' & Hs' & Hname).
      * apply Hgrow. by apply (Hchecked1 eq_refl dets0).
      * congruence.
  - destruct Hrest as [(Hinv & _) Hall]; [|done|done|by apply Hnever in Hall].
    intros knp Hin%enumerate_in_range. rewrite length_map in Hin.
    simpl. lia.
  - exfalso. apply Hrest; [|done|done].
    intros knp Hin%enumerate_in_range. rewrite length_map in Hin.
    simpl. lia.
Qed.

Lemma valid_pt_dexes_of_raises (d : Detector) dl (unfound : list nat) (m : nat) :
  m ∈ unfound → dl !! m = None →
  valid_pt_dexes_of d dl unfound = Raise IndexError.
Proof.
  intros Hin Hnone. induction unfound as [|ii rest IH]; simpl.
  - by apply elem_of_nil in Hin.
  - destruct (dl !! ii) as [dets|] eqn:Hrow; [|done].
    apply elem_of_cons in Hin as [->|Hin]; [congruence|].
    by rewrite IH.
Qed.

Lemma zip_seq_lookup {A : Type} (l : list A) (k j : nat) (x : nat * A) :
  zip (seq k (length l)) l !! j = Some x → x.1 = k + j ∧ j < length l.
Proof.
  rewrite lookup_zip_with. intros Hx.
  destruct (seq k (length l) !! j) as [i|] eqn:Hi; [|done].
  apply lookup_seq in Hi as [-> Hj].
  destruct (l !! j); [|done]. simpl in Hx. by injection Hx as <-.
Qed.

(** X5: with fewer shortlists than points the call raises
    [IndexError], whatever the points and the shortlists given. *)
Theorem missing_shortlist_raises pts dl (allow : bool) :
  length dl < length pts →
  _findDetectorsListLSST pts dl allow = Raise IndexError.
Proof.
  intros Hshort.
  assert (Hnone : dl !! length dl = None) by (by apply lookup_ge_None_2).
  enough (Hsearch : search pts dl allow = Raised IndexError).
  { unfold _findDetectorsListLSST. by rewrite Hsearch. }
  unfold search. destruct allow.
  - assert (Hmark : could_be_multiple_of (length pts) dl true
                    = Raised IndexError); [|by rewrite Hmark].
    unfold could_be_multiple_of.
    assert (Hseq : seq 0 (length pts)
                   = seq 0 (length dl)
                     ++ length dl :: seq (S (length dl))
                                         (length pts - S (length dl))).
    { replace (length pts) with (length dl + S (length pts - S (length dl)))
        at 1 by lia.
      by rewrite seq_app. }
    rewrite Hseq, for_each_app.
    assert (Hpre : ∀ l c, (∀ x, x ∈ l → x < length dl) →
              ∃ c', for_each (mark_could_be_multiple dl) l c = Next c').
    { induction l as [|x l IH]; intros c Hl; simpl; [eauto|].
      destruct (lookup_lt_is_Some_2 dl x) as [dets Hdets].
      { apply Hl. by left. }
      unfold mark_could_be_multiple at 1. rewrite Hdets, mark_wavefront_loop.
      apply IH. intros y Hy. apply Hl. by right. }
    destruct (Hpre (seq 0 (length dl)) (replicate (length pts) false))
      as [c' ->].
    { intros x Hx%list_elem_of_In%in_seq. lia. }
    simpl. unfold mark_could_be_multiple. by rewrite Hnone.
  - simpl.
    set (native := map transformToNative pts).
    set (st0 := mkLoopState _ _ _ _).
    set (body := visit_point dl native (replicate (length pts) false)).
    assert (Hn : length native = length pts) by apply length_map.
    assert (Hslot : ∀ k, k < length pts → outputNameList st0 !! k = Some SNone).
    { intros k Hk. by apply lookup_replicate_2. }
    assert (Hearly : ∀ x, x.1 < length dl →
              body x st0 = Next st0 ∨ body x st0 = Raised IndexError).
    { intros [k np] Hk. simpl in Hk. unfold body, visit_point. cbn [fst].
      rewrite Hslot by lia.
      destruct (lookup_lt_is_Some_2 dl k Hk) as [[|d dets] ->]; [by left|].
      right. cbn [for_each]. unfold visit_detector.
      rewrite bool_decide_eq_false_2 by apply not_elem_of_nil.
      cbn [append_checked chip_has_found st0].
      assert (Hm : length dl ∈ np_where (λ v : Z, (v <? 0)%Z)
                                 (replicate (length pts) (-1)%Z)).
      { apply np_where_unfound. unfold unfound_at.
        by rewrite lookup_replicate_2. }
      destruct (np_where _ _) as [|i0 unfound] eqn:Hwhere;
        [by apply elem_of_nil in Hm|].
      cbn [length Nat.eqb]. rewrite <- Hwhere in *.
      by rewrite (valid_pt_dexes_of_raises d dl _ (length dl) Hm Hnone). }
    assert (Hat : ∀ x, x.1 = length dl → body x st0 = Raised IndexError).
    { intros [k np] Hk. simpl in Hk. subst k. unfold body, visit_point.
      cbn [fst]. by rewrite Hslot, Hnone. }
    assert (Hrun : ∀ l, (∃ x, x ∈ l ∧ x.1 = length dl) →
              (∀ j x, l !! j = Some x → x.1 = length dl ∨ x.1 < length dl
                      ∨ ∃ j' y, j' < j ∧ l !! j' = Some y ∧ y.1 = length dl) →
              for_each body l st0 = Raised IndexError).
    { induction l as [|x l IH]; intros (a & Ha & Hafst) Hord.
      - by apply elem_of_nil in Ha.
      - cbn [for_each].
        destruct (Hord 0 x eq_refl) as [Hx|[Hx|(j' & _ & Hj' & _)]]; [| |lia].
        + by rewrite Hat.
        + destruct (Hearly x Hx) as [-> | ->]; [|done].
          apply IH.
          * apply elem_of_cons in Ha as [->|Ha]; [lia|eauto].
          * intros j y Hy.
            destruct (Hord (S j) y Hy) as [?|[?|(j' & z & Hlt & Hz & Hzfst)]];
              [auto|auto|].
            destruct j' as [|j']; simpl in Hz.
            -- injection Hz as ->. lia.
            -- right; right. exists j', z. split; [lia|done]. }
    apply Hrun.
    + destruct (lookup_lt_is_Some_2
                  (zip (seq 0 (length native)) native) (length dl)) as [x Hx].
      { rewrite length_zip_with, length_seq, Nat.min_id. lia. }
      exists x. split; [by eapply list_elem_of_lookup_2|].
      by apply zip_seq_lookup in Hx as [-> _].
    + intros j x Hx. pose proof Hx as [Hfst Hj]%zip_seq_lookup.
      simpl in Hfst.
      destruct (Nat.lt_trichotomy x.1 (length dl)) as [?|[?|Hgt]]; [auto|auto|].
      right; right.
      destruct (lookup_lt_is_Some_2
                  (zip (seq 0 (length native)) native) (length dl)) as [y Hy].
      { rewrite length_zip_with, length_seq, Nat.min_id. lia. }
      exists (length dl), y. split; [lia|]. split; [done|].
      by apply zip_seq_lookup in Hy as [-> _].
Qed.

End SearchMore.

(** ** Further properties of the globals *)

Lemma for_each_raised {A S : Type} (body : A → S → Flow S) (Q : PyError → Prop) :
  (∀ a s e, body a s = Raised e → Q e) →
  ∀ l s e, for_each body l s = Raised e → Q e.
Proof.
  intros Hbody. induction l as [|a l IH]; intros s e Hrun; simpl in Hrun; [done|].
  destruct (body a s) as [s'| |e'] eqn:Hstep; [by eapply IH|done|].
  injection Hrun as <-. by eapply Hbody.
Qed.

Lemma for_each_returned {A S : Type} (body : A → S → Flow S) :
  (∀ a s s', body a s ≠ Return s') →
  ∀ l s s', for_each body l s ≠ Return s'.
Proof.
  intros Hbody. induction l as [|a l IH]; intros s s' Hrun; simpl in Hrun; [done|].
  destruct (body a s) as [s1|s1|e] eqn:Hstep; [by eapply IH| |done].
  by eapply Hbody.
Qed.

Lemma for_each_next {A S : Type} (body : A → S → Flow S) :
  ∀ l s s', for_each body l s = Next s' →
    ∀ a, a ∈ l → ∃ s1 s2, body a s1 = Next s2.
Proof.
  induction l as [|a l IH]; intros s s' Hrun x Hx; simpl in Hrun.
  - by apply elem_of_nil in Hx.
  - destruct (body a s) as [s1| |] eqn:Hstep; [|done|done].
    apply elem_of_cons in Hx as [->|Hx]; [eauto|by eapply IH].
Qed.

Lemma preserves_note_map (P : option PupilCoordMap → Prop) (e : Effect) :
  preserves (fun g => P (_lsst_pupil_coord_map g)) (note e).
Proof. by intros g Hg. Qed.

Section ProcessMore.
Context `{L : LsstSim}.

(** The entry points keep what a build and a note keep. *)
Lemma chipNameFromPupilCoordsLSST_keeps (P : Globals → Prop)
    (x y : PyArg) (allow : bool) :
  preserves P _build_lsst_pupil_coord_map →
  preserves P (note PupilToNative) →
  preserves P (chipNameFromPupilCoordsLSST x y allow).
Proof.
  intros Hbuild Hnote. unfold chipNameFromPupilCoordsLSST.
  apply preserves_bind; [by apply preserves_pure|]. intros built.
  apply preserves_bind.
  { destruct built; [by apply preserves_pure|done]. }
  intros _. apply preserves_bind; [by apply preserves_pure|]. intros are_arrays.
  destruct are_arrays, x, y; try by apply preserves_pure.
  apply preserves_bind; [by apply preserves_pure|]. intros built'.
  destruct built'; [|by apply preserves_pure].
  apply preserves_bind; [by apply preserves_pure|]. intros rows.
  apply preserves_bind; [done|]. intros _.
  by apply preserves_pure.
Qed.

Lemma do_call_keeps (P : Globals → Prop) (c : ModuleCall) :
  preserves P _build_lsst_pupil_coord_map →
  preserves P (note PupilToNative) → preserves P (note RaDecToPupil) →
  ∀ g, P g → P (do_call c g).
Proof.
  intros Hbuild Hnote Hnote' g Hg. destruct c as [|x y allow|ra dec obs epoch allow];
    simpl.
  - by apply Hbuild.
  - by apply chipNameFromPupilCoordsLSST_keeps.
  - revert g Hg. fold (preserves P (_chipNameFromRaDecLSST ra dec obs epoch allow)).
    unfold _chipNameFromRaDecLSST.
    apply preserves_bind; [by apply preserves_pure|]. intros _.
    destruct epoch as [ep|]; [|by apply preserves_pure].
    destruct obs as [o|]; [|by apply preserves_pure].
    destruct (mjd o); [|by apply preserves_pure].
    destruct (rotSkyPos o); [|by apply preserves_pure].
    apply preserves_bind; [done|]. intros _.
    apply preserves_bind; [by apply preserves_pure|]. intros xp_yp.
    by apply chipNameFromPupilCoordsLSST_keeps.
Qed.

Lemma build_keeps_map (m : PupilCoordMap) :
  preserves (fun g => _lsst_pupil_coord_map g = Some m)
            _build_lsst_pupil_coord_map.
Proof.
  intros [built h] Hg. simpl in Hg. subst built. reflexivity.
Qed.

(** X6: once the map is built no call of the module replaces or
    removes it, whatever the calls and whether they return or raise. *)
Theorem built_map_is_kept (m : PupilCoordMap) (calls : list ModuleCall)
    (g : Globals) :
  _lsst_pupil_coord_map g = Some m →
  _lsst_pupil_coord_map (fold_left (fun g c => do_call c g) calls g) = Some m.
Proof.
  revert g. induction calls as [|c calls IH]; intros g Hg; simpl; [done|].
  apply IH.
  apply (do_call_keeps (fun g => _lsst_pupil_coord_map g = Some m) c);
    [apply build_keeps_map| | |done];
    apply (preserves_note_map (fun o => o = Some m)).
Qed.

(** The two ways a build of an unbuilt map can end. *)
Lemma build_outcome (g : Globals) :
  _lsst_pupil_coord_map g = None →
  (∃ g' m, _build_lsst_pupil_coord_map g = (g', Ok tt)
           ∧ _lsst_pupil_coord_map g' = Some m)
  ∨ (∃ g', _build_lsst_pupil_coord_map g = (g', Raise IndexError)
           ∧ _lsst_pupil_coord_map g' = None).
Proof.
  intros Hnone.
  unfold _build_lsst_pupil_coord_map, mbind, Py_bind, read_map.
  rewrite Hnone. cbn [note history _lsst_pupil_coord_map].
  destruct (pupilCoordsFromPixelCoords _ _ _) as [xs ys].
  destruct (for_each _ _ _) as [[[[cx cy] ext] fn]|[[[cx cy] ext] fn]|e] eqn:Hrun.
  - left. by eexists _, _.
  - left. by eexists _, _.
  - right. assert (e = IndexError) as ->.
    { revert Hrun. apply (for_each_raised _ (fun e => e = IndexError)). clear.
      intros k [[[cx cy] ext] fn] e. unfold footprint_step.
      repeat case_match; by intros [= <-]. }
    eexists. split; [reflexivity|]. simpl. exact Hnone.
Qed.

(** X7: a build asked of the module with no map either returns with
    the map written, or raises [IndexError] with still no map: it never
    leaves a map half built. *)
Theorem build_writes_or_leaves_none (g : Globals) :
  _lsst_pupil_coord_map g = None →
  (∃ g' m, _build_lsst_pupil_coord_map g = (g', Ok tt)
           ∧ _lsst_pupil_coord_map g' = Some m)
  ∨ (∃ g', _build_lsst_pupil_coord_map g = (g', Raise IndexError)
           ∧ _lsst_pupil_coord_map g' = None).
Proof. apply build_outcome. Qed.

(** The call with the map built: the map is read, never written. *)
Lemma chipNameFromPupilCoordsLSST_built (x y : PyArg) (allow : bool)
    (g : Globals) (m : PupilCoordMap) :
  _lsst_pupil_coord_map g = Some m →
  chipNameFromPupilCoordsLSST x y allow g =
  match _validate_inputs [x; y] ["xPupil"; "yPupil"]%string
                         "chipNameFromPupilCoordsLSST"%string with
  | Raise e => (g, Raise e)
  | Ok are_arrays =>
      match are_arrays, x, y with
      | true, PyArray xs, PyArray ys =>
          match valid_detectors_of m (zip xs ys) with
          | Raise e => (g, Raise e)
          | Ok rows =>
              (mkGlobals (Some m) (history g ++ [PupilToNative]),
               _findDetectorsListLSST (zip xs ys) rows allow)
          end
      | _, _, _ =>
          (g, Raise (RuntimeError
             "Pupil coordinates passed to chipNameFromPupilCoordsLSST must be in numpy arrays"%string))
      end
  end.
Proof.
  intros Hmap.
  unfold chipNameFromPupilCoordsLSST, mbind, Py_bind, read_map, py_lift.
  rewrite Hmap. cbn [mret Py_ret].
  destruct (_validate_inputs _ _ _) as [[] |e]; [|by destruct x, y|done].
  destruct x as [a|xs], y as [b|ys]; try done.
  rewrite Hmap.
  destruct (valid_detectors_of m (zip xs ys)) as [rows|e]; [|done].
  unfold note. cbn [_lsst_pupil_coord_map history]. rewrite Hmap.
  by destruct (_findDetectorsListLSST _ rows allow).
Qed.

(** The first call builds the map and goes on as a call with the map
    built. *)
Lemma chipNameFromPupilCoordsLSST_after_build (x y : PyArg) (allow : bool)
    (g g1 : Globals) (m : PupilCoordMap) :
  _lsst_pupil_coord_map g = None →
  _build_lsst_pupil_coord_map g = (g1, Ok tt) →
  _lsst_pupil_coord_map g1 = Some m →
  chipNameFromPupilCoordsLSST x y allow g
  = chipNameFromPupilCoordsLSST x y allow g1.
Proof.
  intros Hnone Hbuild Hmap.
  unfold chipNameFromPupilCoordsLSST, mbind, Py_bind, read_map.
  rewrite Hnone, Hbuild, Hmap. reflexivity.
Qed.

(** X8: under [corners_ok] a call of [chipNameFromPupilCoordsLSST]
    leaves the map built, also when it raises: the map is built before
    the arguments are looked at. *)
Theorem query_leaves_map_built (x y : PyArg) (allow : bool) (g : Globals) :
  corners_ok →
  ∃ m, _lsst_pupil_coord_map (chipNameFromPupilCoordsLSST x y allow g).1
       = Some m.
Proof.
  intros Hok.
  assert (Hbuilt : ∀ g1 m, _lsst_pupil_coord_map g1 = Some m →
    _lsst_pupil_coord_map (chipNameFromPupilCoordsLSST x y allow g1).1 = Some m).
  { intros g1 m Hmap. rewrite (chipNameFromPupilCoordsLSST_built _ _ _ _ m Hmap).
    repeat case_match; done. }
  destruct (_lsst_pupil_coord_map g) as [m|] eqn:Hmap; [eauto|].
  destruct (build_spec Hok g Hmap) as (m & Hrun & _).
  exists m.
  rewrite (chipNameFromPupilCoordsLSST_after_build x y allow g _ m Hmap Hrun eq_refl).
  by apply Hbuilt.
Qed.

(** X9: under [corners_ok] a call repeated with the same arguments
    returns or raises what the first call did, and leaves the map as
    the first call left it. *)
Theorem repeated_query_same_result (x y : PyArg) (allow : bool) (g : Globals) :
  corners_ok →
  let first := chipNameFromPupilCoordsLSST x y allow g in
  let second := chipNameFromPupilCoordsLSST x y allow first.1 in
  second.2 = first.2
  ∧ _lsst_pupil_coord_map second.1 = _lsst_pupil_coord_map first.1.
Proof.
  intros Hok.
  assert (Hbuilt : ∀ g1 m, _lsst_pupil_coord_map g1 = Some m →
    let first := chipNameFromPupilCoordsLSST x y allow g1 in
    let second := chipNameFromPupilCoordsLSST x y allow first.1 in
    second.2 = first.2
    ∧ _lsst_pupil_coord_map second.1 = _lsst_pupil_coord_map first.1).
  { intros g1 m Hmap first second.
    assert (Hfirst : _lsst_pupil_coord_map first.1 = Some m).
    { subst first. rewrite (chipNameFromPupilCoordsLSST_built _ _ _ _ m Hmap).
      repeat case_match; done. }
    subst second.
    rewrite (chipNameFromPupilCoordsLSST_built _ _ _ _ m Hfirst).
    subst first.
    rewrite (chipNameFromPupilCoordsLSST_built _ _ _ _ m Hmap).
    repeat case_match; done. }
  destruct (_lsst_pupil_coord_map g) as [m|] eqn:Hmap; [by eapply Hbuilt|].
  destruct (build_spec Hok g Hmap) as (m & Hrun & _).
  rewrite (chipNameFromPupilCoordsLSST_after_build x y allow g _ m Hmap Hrun eq_refl).
  by eapply Hbuilt.
Qed.

End ProcessMore.

(** ** Further properties of the entry points *)

Lemma NoDup_map_inj {A B : Type} (f : A → B) (l : list A) (x y : A) :
  NoDup (map f l) → x ∈ l → y ∈ l → f x = f y → x = y.
Proof.
  induction l as [|a l IH]; intros Hnd Hx Hy Hf; simpl in Hnd.
  - by apply elem_of_nil in Hx.
  - apply NoDup_cons in Hnd as [Hnotin Hnd].
    apply elem_of_cons in Hx as [->|Hx], Hy as [->|Hy]; [done| | |by apply IH].
    + exfalso. apply Hnotin. rewrite Hf.
      apply list_elem_of_In, in_map, list_elem_of_In. done.
    + exfalso. apply Hnotin. rewrite <- Hf.
      apply list_elem_of_In, in_map, list_elem_of_In. done.
Qed.

(** With a shortlist for every point the call returns as many entries
    as points, each about the point at its index. *)
Lemma search_entries {CameraPoint : Type} `{G : CameraGeom CameraPoint}
    (pts : list CameraPoint) (dl : list (list Detector)) (allow : bool) :
  length pts ≤ length dl →
  ∃ names,
    _findDetectorsListLSST pts dl allow = Ok names
    ∧ length names = length pts
    ∧ ∀ i r, names !! i = Some r → entry_for pts dl i r.
Proof.
  intros Hlen.
  destruct (search_runs pts dl allow Hlen) as (cbm & st & _ & _ & Hinv & Hend).
  assert (Hret : returns (search pts dl allow) st).
  { destruct Hend as [[? _]|[? _]]; [by left|by right]. }
  exists (map stringify (outputNameList st)).
  split; [by apply search_result|].
  split; [by rewrite length_map, (inv_output_length _ _ _ _ Hinv)|].
  intros i r Hr. rewrite list_lookup_fmap in Hr.
  apply fmap_Some in Hr as (s & Hs & ->).
  destruct s as [|name|names]; simpl.
  - by left.
  - right; left.
    destruct (inv_names _ _ _ _ Hinv i _ name Hs) as [_ (d & <- & Hhit)];
      [by left|].
    eauto.
  - right; right. exists names. split; [done|].
    intros name Hname.
    by destruct (inv_names _ _ _ _ Hinv i _ name Hs Hname) as [_ ?].
Qed.

Section EntryPointsMore.
Context `{L : LsstSim}.

Open Scope R_scope.

Lemma valid_detectors_of_members (m : PupilCoordMap) (points : list (R * R))
    (rows : list (list Detector)) :
  map_ok m → valid_detectors_of m points = Ok rows →
  ∀ row d, row ∈ rows → d ∈ row → d ∈ _lsst_camera.
Proof.
  intros Hok Hrun row d Hrow Hd.
  destruct (valid_detectors_of_rows m points Hok) as (rows' & Hrun' & Hlen & Hall).
  assert (rows' = rows) as -> by congruence.
  apply list_elem_of_lookup_1 in Hrow as [k Hk].
  destruct (lookup_lt_is_Some_2 points k) as [[xx yy] Hpt].
  { rewrite <- Hlen. by eapply lookup_lt_Some. }
  destruct (Hall k xx yy Hpt) as (row' & Hk' & Hlocal).
  assert (row' = row) as -> by congruence.
  destruct Hok as (Hx & _ & _ & _ & Hnames).
  destruct (local_valid_spec m (possible_dexes m xx yy) Hnames)
    as (row' & Hlocal' & Hmem).
  { intros ii (cx & _ & _ & Hcx & _)%possible_dexes_spec.
    apply lookup_lt_Some in Hcx. by rewrite <- Hx. }
  assert (row' = row) as -> by congruence.
  apply Hmem in Hd as (ii & name & _ & _ & Hget).
  by apply camera_getitem_Ok in Hget as [? _].
Qed.

(** X10: the shortlists hold detectors of the camera only, so with a
    camera that names no two detectors alike no two detectors of the
    shortlists have one name. *)
Theorem shortlists_of_camera_detectors (m : PupilCoordMap)
    (points : list (R * R)) (rows : list (list Detector)) :
  map_ok m → NoDup (map getName _lsst_camera) →
  valid_detectors_of m points = Ok rows →
  (∀ row d, row ∈ rows → d ∈ row → d ∈ _lsst_camera)
  ∧ unique_names rows.
Proof.
  intros Hok Hnd Hrun.
  pose proof (valid_detectors_of_members m points rows Hok Hrun) as Hmem.
  split; [done|].
  intros dets dets' d d' Hdets Hdets' Hd Hd' Hname.
  apply (NoDup_map_inj getName _lsst_camera); eauto.
Qed.

(** X11: with the map absent or well formed, and a camera of distinct
    names and four corners a chip, a call with two arrays of one length
    does not raise: it returns one entry per point, the entry at index
    [i] being [None], the name of a detector shortlisted for point [i]
    that holds it, or the [str] of a list of such names. *)
Theorem arrays_give_one_entry_per_point (xs ys : list R) (allow : bool)
    (g : Globals) :
  corners_ok → NoDup (map getName _lsst_camera) → globals_ok g →
  length xs = length ys →
  ∃ g' m rows names,
    chipNameFromPupilCoordsLSST (PyArray xs) (PyArray ys) allow g
    = (g', Ok names)
    ∧ _lsst_pupil_coord_map g' = Some m
    ∧ valid_detectors_of m (zip xs ys) = Ok rows
    ∧ length names = length xs
    ∧ ∀ i r, names !! i = Some r → entry_for (zip xs ys) rows i r.
Proof.
  intros Hcorners Hnd Hg Hlen.
  assert (Hbuilt : ∀ g1 m, _lsst_pupil_coord_map g1 = Some m → map_ok m →
    ∃ g' rows names,
      chipNameFromPupilCoordsLSST (PyArray xs) (PyArray ys) allow g1
      = (g', Ok names)
      ∧ _lsst_pupil_coord_map g' = Some m
      ∧ valid_detectors_of m (zip xs ys) = Ok rows
      ∧ length names = length xs
      ∧ ∀ i r, names !! i = Some r → entry_for (zip xs ys) rows i r).
  { intros g1 m Hmap Hok.
    rewrite (chipNameFromPupilCoordsLSST_built _ _ _ _ m Hmap).
    unfold _validate_inputs. cbn [is_array forallb arg_length andb].
    rewrite Nat.eqb_refl, <- Hlen, Nat.eqb_refl. cbn [andb].
    destruct (valid_detectors_of_rows m (zip xs ys) Hok)
      as (rows & -> & Hrows & _).
    destruct (search_entries (zip xs ys) rows allow)
      as (names & -> & Hnames & Hentries); [lia|].
    eexists _, rows, names. split; [done|]. split; [done|]. split; [done|].
    split; [|done].
    rewrite Hnames, length_zip_with. lia. }
  unfold globals_ok in Hg.
  destruct (_lsst_pupil_coord_map g) as [m|] eqn:Hmap.
  - destruct (Hbuilt g m Hmap Hg) as (g' & rows & names & ?). eauto 10.
  - destruct (built_map_ok g Hcorners Hnd Hmap) as (g1 & m & Hrun & Hmap1 & Hok).
    rewrite (chipNameFromPupilCoordsLSST_after_build _ _ _ g g1 m Hmap Hrun Hmap1).
    destruct (Hbuilt g1 m Hmap1 Hok) as (g' & rows & names & ?). eauto 10.
Qed.

(** X12: in a process on a camera of distinct names and four corners a
    chip, the map is at every moment absent or well formed. *)
Theorem process_map_well_formed (calls : list ModuleCall) :
  corners_ok → NoDup (map getName _lsst_camera) →
  globals_ok (run_process calls).
Proof.
  intros Hcorners Hnd. unfold run_process.
  induction calls as [|c calls IH] using rev_ind; [exact I|].
  rewrite fold_left_app. cbn [fold_left].
  apply (do_call_keeps globals_ok c); [| | |exact IH].
  - intros g Hg. unfold globals_ok in *.
    destruct (_lsst_pupil_coord_map g) as [m|] eqn:Hmap.
    + assert (Hsame : _build_lsst_pupil_coord_map g
                      = (g, Raise (RuntimeError
           "Calling _build_pupil_coord_map(), but it is already built."%string))).
      { unfold _build_lsst_pupil_coord_map, mbind, Py_bind, read_map.
        by rewrite Hmap. }
      rewrite Hsame. cbn [fst]. by rewrite Hmap.
    + destruct (built_map_ok g Hcorners Hnd Hmap) as (g1 & m & Hrun & Hmap1 & Hok).
      rewrite Hrun. cbn [fst]. by rewrite Hmap1.
  - apply (preserves_note_map
             (fun o => match o with None => True | Some m => map_ok m end)).
  - apply (preserves_note_map
             (fun o => match o with None => True | Some m => map_ok m end)).
Qed.

(** X13: without an epoch [_chipNameFromRaDecLSST] raises a
    [RuntimeError], whatever the observation context, and touches
    neither the map nor the transforms. *)
Theorem missing_epoch_raises (ra dec : PyArg)
    (obs : option ObservationMetaData) (allow : bool) (g : Globals) :
  ∃ msg, _chipNameFromRaDecLSST ra dec obs None allow g
         = (g, Raise (RuntimeError msg)).
Proof.
  unfold _chipNameFromRaDecLSST, mbind, Py_bind, py_lift.
  destruct (_validate_inputs [ra; dec] ["ra"; "dec"]%string
                             "chipNameFromRaDecLSST"%string) as [b|e] eqn:Hval.
  - by eexists.
  - unfold _validate_inputs in Hval.
    repeat match type of Hval with
           | (if ?c then _ else _) = _ => destruct c
           end; try discriminate; injection Hval as <-; by eexists.
Qed.

End EntryPointsMore.

Lemma take_at_Ok_in_range {A : Type} (a : list A) (dexes : list nat) (xs : list A) :
  take_at a dexes = Ok xs → ∀ i, i ∈ dexes → i < length a.
Proof.
  revert xs. induction dexes as [|ii rest IH]; intros xs Hrun i Hi.
  - by apply elem_of_nil in Hi.
  - simpl in Hrun. destruct (a !! ii) as [x|] eqn:Hx; [|done].
    destruct (take_at a rest) as [xs'|] eqn:Hrest; [|done].
    apply elem_of_cons in Hi as [->|Hi]; [by eapply lookup_lt_Some|by eapply IH].
Qed.

Section BuildMore.
Context `{L : LsstSim}.

Lemma footprint_step_in_range (names : list string) (xs ys : list R) (k : nat)
    (acc acc' : list R * list R * list R * list string) :
  footprint_step names xs ys k acc = Next acc' → k * 4 + 3 < length xs.
Proof.
  destruct acc as [[[cx cy] ext] fn]. unfold footprint_step.
  destruct (names !! (k * 4)); [|done].
  destruct (take_at xs _) as [vs|] eqn:Hxs; [|done].
  intros _. apply (take_at_Ok_in_range _ _ _ Hxs).
  do 3 right. by left.
Qed.

Lemma footprint_step_no_return (names : list string) (xs ys : list R) (k : nat)
    (acc acc' : list R * list R * list R * list string) :
  footprint_step names xs ys k acc ≠ Return acc'.
Proof.
  destruct acc as [[[cx cy] ext] fn]. unfold footprint_step.
  repeat case_match; done.
Qed.

(** X14: when [getCornerPixels] gives fewer than four corners a chip
    in all, a build does not write a map: it raises [IndexError] and
    the module stays without a map. *)
Theorem too_few_corners_raise (g : Globals) :
  _lsst_pupil_coord_map g = None →
  length corner_pixels < 4 * length _lsst_camera →
  ∃ g', _build_lsst_pupil_coord_map g = (g', Raise IndexError)
        ∧ _lsst_pupil_coord_map g' = None.
Proof.
  intros Hnone Hfew.
  destruct (build_outcome g Hnone)
    as [(g' & m & Hrun & _)|Hraise]; [exfalso|done].
  revert Hrun.
  unfold _build_lsst_pupil_coord_map, mbind, Py_bind, read_map.
  rewrite Hnone. cbn [note history _lsst_pupil_coord_map].
  destruct (pupilCoordsFromPixelCoords _ _ _) as [xs ys] eqn:Hpup.
  assert (Hxs : length xs ≤ length corner_pixels).
  { unfold pupilCoordsFromPixelCoords in Hpup. injection Hpup as <- _.
    rewrite length_map, !length_zip_with, length_map. lia. }
  destruct (for_each _ _ _) as [acc|acc|e] eqn:Hloop; [| |done]; intros _.
  - destruct (for_each_next _ _ _ _ Hloop (length _lsst_camera - 1))
      as (s1 & s2 & Hstep).
    { apply list_elem_of_In, in_seq. lia. }
    apply footprint_step_in_range in Hstep. lia.
  - by apply for_each_returned in Hloop;
      [|intros; apply footprint_step_no_return].
Qed.

End BuildMore.

(** ** The points that may be on several chips, once more *)

Section SearchEligible.
Context {CameraPoint : Type} `{G : CameraGeom CameraPoint}.
Implicit Types (pts : list CameraPoint) (dl : list (list Detector)).

Lemma multi_in_test_order_visit pts dl cbm d st st' :
  search_inv pts dl cbm st → multi_in_test_order pts dl cbm st →
  visit_post pts dl cbm d st st' → multi_in_test_order pts dl cbm st'.
Proof.
  intros Hinv Horder Hpost i s' Hb Hs'.
  rewrite (vp_output _ _ _ _ _ _ Hpost), Hb in Hs'. cbn [default] in Hs'.
  pose proof (eligible_stays_unfound pts dl cbm st i Hinv Hb) as Hu.
  assert (Htarget : target pts dl (chip_has_found st) d i = hits pts dl d i).
  { unfold target. by rewrite Hu. }
  rewrite Htarget in Hs'.
  rewrite (vp_tests _ _ _ _ _ _ Hpost).
  destruct (valid_of dl d (chip_has_found st)) as [|i1 valid] eqn:Hvalid.
  - assert (hits pts dl d i = false) as Hno.
    { rewrite <- Htarget, <- (valid_of_target pts dl), Hvalid.
      by rewrite bool_decide_eq_false_2 by apply not_elem_of_nil. }
    rewrite Hno in Hs'. by apply Horder.
  - unfold held_tests. rewrite List.filter_app, map_app. cbn [List.filter ev_detector].
    destruct (hits pts dl d i).
    + apply fmap_Some in Hs' as (s & Hs & ->).
      rewrite slot_names_hit. f_equal. by apply Horder.
    + cbn [map]. rewrite app_nil_r. by apply Horder.
Qed.

(** X15: the names of a point that may be on several chips are those
    of the tests whose detector is in its shortlist and holds it, in the
    order in which the tests were made. *)
Theorem composite_in_test_order pts dl (allow : bool) i dets :
  length pts ≤ length dl → i < length pts → dl !! i = Some dets →
  allow && existsb is_wavefront dets = true →
  ∃ st names s,
    returns (search pts dl allow) st
    ∧ _findDetectorsListLSST pts dl allow = Ok names
    ∧ outputNameList st !! i = Some s
    ∧ names !! i = Some (stringify s)
    ∧ slot_names s
      = map (fun ev => getName (ev_detector ev))
            (held_tests pts dl i (tests st)).
Proof.
  intros Hlen Hi Hrow Heligible.
  destruct (search_keeps pts dl allow (multi_in_test_order pts dl) Hlen)
    as (cbm & st & Hcl & Hcbm & Hret & Hinv & Horder).
  - intros cbm j s _ [-> _]%lookup_replicate. done.
  - intros cbm st name _ _ Horder _ _. exact Horder.
  - intros cbm d st st' _ Hinv Horder _ _ Hpost.
    by eapply multi_in_test_order_visit.
  - destruct (lookup_lt_is_Some_2 (outputNameList st) i) as [s Hs].
    { by rewrite (inv_output_length _ _ _ _ Hinv). }
    exists st, (map stringify (outputNameList st)), s.
    split; [done|]. split; [by apply search_result|]. split; [done|].
    split; [by rewrite list_lookup_fmap, Hs|].
    apply Horder; [|done]. by rewrite (Hcbm i dets Hi Hrow), Heligible.
Qed.

(** X16: when a point may be on several chips the search never takes
    the early [return] of line 135: it goes through the whole loop. *)
Theorem eligible_point_disables_early_return pts dl (allow : bool) i dets :
  length pts ≤ length dl → i < length pts → dl !! i = Some dets →
  allow && existsb is_wavefront dets = true →
  ∃ st, search pts dl allow = Next st.
Proof.
  intros Hlen Hi Hrow Heligible.
  destruct (search_runs pts dl allow Hlen)
    as (cbm & st & Hcl & Hcbm & Hinv & [[Hrun _]|[_ Hall]]); [eauto|].
  assert (Hb : cbm !! i = Some true).
  { by rewrite (Hcbm i dets Hi Hrow), Heligible. }
  pose proof (eligible_stays_unfound pts dl cbm st i Hinv Hb) as Hu.
  by rewrite Hall in Hu.
Qed.

End SearchEligible.

(** ** The further properties at concrete inputs *)

Ltac solve_unique_names :=
  let Hname := fresh "Hname" in
  intros ? ? ? ? ? ? ? ? Hname;
  repeat match goal with
         | H : _ ∈ _ :: _ |- _ => apply elem_of_cons in H as [->|H]
         | H : _ ∈ [] |- _ => by apply elem_of_nil in H
         end; try reflexivity; by vm_compute in Hname.

Lemma wavefront_rows_unique : unique_names [[W1; W2]; [W1]].
Proof. solve_unique_names. Qed.

Lemma wavefront_row_unique : unique_names [[W1; W2]].
Proof. solve_unique_names. Qed.

Lemma two_chips_names : NoDup (map getName (@_lsst_camera two_chips)).
Proof.
  simpl. apply NoDup_cons. split; [|apply NoDup_singleton].
  by intros ?%list_elem_of_singleton.
Qed.

Lemma two_chips_corners : @corners_ok two_chips.
Proof. intros chip _. reflexivity. Qed.

(** X1 at a point inside two wavefront detectors. *)
Lemma tested_on_unfound_shortlisters_witness :
  length [1] ≤ length [[W1; W2]]
  ∧ ∃ st,
      returns (@search _ toy [1] [[W1; W2]] true) st
      ∧ ∀ ev, ev ∈ tests st →
          ev_points ev ≠ []
          ∧ ∀ i, i ∈ ev_points ev ↔
                 unfound_at (ev_found ev) i = true
                 ∧ shortlisted [[W1; W2]] (ev_detector ev) i = true.
Proof.
  split; [simpl; lia|].
  apply (@tested_on_unfound_shortlisters _ toy [1] [[W1; W2]] true).
  simpl; lia.
Defined.

(** X2 at point 2 and its two ordinary detectors. *)
Lemma unnamed_iff_not_held_witness :
  length [2; 1] ≤ length [[O1; O2]; [W1; W2]]
  ∧ unique_names [[O1; O2]; [W1; W2]]
  ∧ ∃ names,
      @_findDetectorsListLSST _ toy [2; 1] [[O1; O2]; [W1; W2]] true = Ok names
      ∧ (names !! 0 = Some None ↔
         ∀ d, @hits _ toy [2; 1] [[O1; O2]; [W1; W2]] d 0 = false).
Proof.
  assert (Hlen : length [2; 1] ≤ length [[O1; O2]; [W1; W2]]) by (simpl; lia).
  split; [exact Hlen|]. split; [exact toy_unique_names|].
  apply (@unnamed_iff_not_held _ toy [2; 1] [[O1; O2]; [W1; W2]] true 0 [O1; O2]
           Hlen ltac:(simpl; lia) eq_refl eq_refl toy_unique_names).
Defined.

(** X3 at a batch on ordinary detectors. *)
Lemma allow_flag_without_wavefront_witness :
  length [2] ≤ length [[O1; O2]]
  ∧ @_findDetectorsListLSST _ toy [2] [[O1; O2]] true
    = @_findDetectorsListLSST _ toy [2] [[O1; O2]] false.
Proof.
  split; [simpl; lia|].
  apply (@allow_flag_without_wavefront _ toy [2] [[O1; O2]]); [simpl; lia|].
  intros [|i] dets d Hi Hrow Hd; [|simpl in Hi; lia].
  injection Hrow as <-.
  apply elem_of_cons in Hd as [->|Hd]; [discriminate|].
  apply elem_of_cons in Hd as [->|Hd]; [discriminate|].
  by apply elem_of_nil in Hd.
Defined.

(** X4 at point 1, first of its batch. *)
Lemma first_point_gets_every_chip_witness :
  length [1; 0] ≤ length [[W1; W2]; [W1]]
  ∧ unique_names [[W1; W2]; [W1]]
  ∧ existsb is_wavefront [W1; W2] = true
  ∧ ∃ st names s,
      returns (@search _ toy [1; 0] [[W1; W2]; [W1]] true) st
      ∧ @_findDetectorsListLSST _ toy [1; 0] [[W1; W2]; [W1]] true = Ok names
      ∧ outputNameList st !! 0 = Some s
      ∧ names !! 0 = Some (@stringify s)
      ∧ ∀ name, name ∈ slot_names s ↔
                ∃ d, d ∈ [W1; W2] ∧ @inside _ toy d 1 = true ∧ getName d = name.
Proof.
  assert (Hlen : length [1; 0] ≤ length [[W1; W2]; [W1]]) by (simpl; lia).
  split; [exact Hlen|]. split; [exact wavefront_rows_unique|].
  split; [reflexivity|].
  apply (@first_point_gets_every_chip _ toy 1 [0] [[W1; W2]; [W1]] [W1; W2]
           Hlen eq_refl wavefront_rows_unique eq_refl).
Defined.

(** X5 at two points with one shortlist. *)
Lemma missing_shortlist_raises_witness :
  length [[W1]] < length [0; 1]
  ∧ @_findDetectorsListLSST _ toy [0; 1] [[W1]] false = Raise IndexError.
Proof.
  split; [simpl; lia|].
  apply (@missing_shortlist_raises _ toy [0; 1] [[W1]] false). simpl; lia.
Defined.

(** X6 at a build asked again. *)
Lemma built_map_is_kept_witness :
  _lsst_pupil_coord_map (mkGlobals (Some two_circles) []) = Some two_circles
  ∧ _lsst_pupil_coord_map
      (fold_left (fun g c => @do_call two_chips c g)
                 [@CallBuild; @CallChipNameFromPupilCoords (PyNumber 0%R)
                                (PyNumber 0%R) false]
                 (mkGlobals (Some two_circles) []))
    = Some two_circles.
Proof.
  split; [reflexivity|].
  apply (@built_map_is_kept two_chips two_circles). reflexivity.
Defined.

(** X7 at the first build of the two chips. *)
Lemma build_writes_or_leaves_none_witness :
  _lsst_pupil_coord_map initial_globals = None
  ∧ ((∃ g' m, @_build_lsst_pupil_coord_map two_chips initial_globals = (g', Ok tt)
              ∧ _lsst_pupil_coord_map g' = Some m)
     ∨ (∃ g', @_build_lsst_pupil_coord_map two_chips initial_globals
              = (g', Raise IndexError)
              ∧ _lsst_pupil_coord_map g' = None)).
Proof.
  split; [reflexivity|].
  apply (@build_writes_or_leaves_none two_chips initial_globals). reflexivity.
Defined.

(** X8 at a call with two numbers. *)
Lemma query_leaves_map_built_witness :
  @corners_ok two_chips
  ∧ ∃ m, _lsst_pupil_coord_map
           (@chipNameFromPupilCoordsLSST two_chips (PyNumber 0%R) (PyNumber 0%R)
              false initial_globals).1 = Some m.
Proof.
  split; [exact two_chips_corners|].
  apply (@query_leaves_map_built two_chips). exact two_chips_corners.
Defined.

(** X9 at a call on one point. *)
Lemma repeated_query_same_result_witness :
  @corners_ok two_chips
  ∧ let first := @chipNameFromPupilCoordsLSST two_chips (PyArray [0%R])
                   (PyArray [0%R]) false initial_globals in
    let second := @chipNameFromPupilCoordsLSST two_chips (PyArray [0%R])
                    (PyArray [0%R]) false first.1 in
    second.2 = first.2
    ∧ _lsst_pupil_coord_map second.1 = _lsst_pupil_coord_map first.1.
Proof.
  split; [exact two_chips_corners|].
  apply (@repeated_query_same_result two_chips). exact two_chips_corners.
Defined.

(** X10 at the point (0, 0) and the two circles. *)
Lemma shortlists_of_camera_detectors_witness :
  @map_ok two_chips two_circles
  ∧ NoDup (map getName (@_lsst_camera two_chips))
  ∧ ∃ rows,
      @valid_detectors_of two_chips two_circles [(0%R, 0%R)] = Ok rows
      ∧ (∀ row d, row ∈ rows → d ∈ row → d ∈ @_lsst_camera two_chips)
      ∧ unique_names rows.
Proof.
  split; [exact two_circles_ok|]. split; [exact two_chips_names|].
  destruct (@valid_detectors_of_rows two_chips two_circles [(0%R, 0%R)]
              two_circles_ok) as (rows & Hrun & _).
  exists rows. split; [exact Hrun|].
  exact (@shortlists_of_camera_detectors two_chips two_circles [(0%R, 0%R)] rows
           two_circles_ok two_chips_names Hrun).
Defined.

(** X11 at a first call on one point. *)
Lemma arrays_give_one_entry_per_point_witness :
  @corners_ok two_chips
  ∧ NoDup (map getName (@_lsst_camera two_chips))
  ∧ @globals_ok two_chips initial_globals
  ∧ length [0%R] = length [0%R]
  ∧ ∃ g' m rows names,
      @chipNameFromPupilCoordsLSST two_chips (PyArray [0%R]) (PyArray [0%R])
        true initial_globals = (g', Ok names)
      ∧ _lsst_pupil_coord_map g' = Some m
      ∧ @valid_detectors_of two_chips m (zip [0%R] [0%R]) = Ok rows
      ∧ length names = length [0%R]
      ∧ ∀ i r, names !! i = Some r
               → @entry_for _ (@lsst_geom two_chips) (zip [0%R] [0%R]) rows i r.
Proof.
  split; [exact two_chips_corners|]. split; [exact two_chips_names|].
  split; [exact I|]. split; [reflexivity|].
  apply (@arrays_give_one_entry_per_point two_chips [0%R] [0%R] true
           initial_globals two_chips_corners two_chips_names I eq_refl).
Defined.

(** X12 at a process of two calls. *)
Lemma process_map_well_formed_witness :
  @corners_ok two_chips
  ∧ NoDup (map getName (@_lsst_camera two_chips))
  ∧ @globals_ok two_chips
      (@run_process two_chips
         [@CallChipNameFromPupilCoords (PyArray [0%R]) (PyArray [0%R]) false;
          @CallBuild]).
Proof.
  split; [exact two_chips_corners|]. split; [exact two_chips_names|].
  apply (@process_map_well_formed two_chips _ two_chips_corners two_chips_names).
Defined.

(** X14 at a camera whose chip has no corners. *)
Lemma too_few_corners_raise_witness :
  _lsst_pupil_coord_map initial_globals = None
  ∧ length (@corner_pixels no_corners) < 4 * length (@_lsst_camera no_corners)
  ∧ ∃ g', @_build_lsst_pupil_coord_map no_corners initial_globals
          = (g', Raise IndexError)
          ∧ _lsst_pupil_coord_map g' = None.
Proof.
  split; [reflexivity|]. split; [simpl; lia|].
  apply (@too_few_corners_raise no_corners initial_globals); [reflexivity|].
  simpl; lia.
Defined.

(** X15 at a point inside two wavefront detectors. *)
Lemma composite_in_test_order_witness :
  length [1] ≤ length [[W1; W2]]
  ∧ true && existsb is_wavefront [W1; W2] = true
  ∧ ∃ st names s,
      returns (@search _ toy [1] [[W1; W2]] true) st
      ∧ @_findDetectorsListLSST _ toy [1] [[W1; W2]] true = Ok names
      ∧ outputNameList st !! 0 = Some s
      ∧ names !! 0 = Some (@stringify s)
      ∧ slot_names s
        = map (fun ev => getName (ev_detector ev))
              (@held_tests _ toy [1] [[W1; W2]] 0 (tests st)).
Proof.
  assert (Hlen : length [1] ≤ length [[W1; W2]]) by (simpl; lia).
  split; [exact Hlen|]. split; [reflexivity|].
  apply (@composite_in_test_order _ toy [1] [[W1; W2]] true 0 [W1; W2]
           Hlen ltac:(simpl; lia) eq_refl eq_refl).
Defined.

(** X16 at the same point. *)
Lemma eligible_point_disables_early_return_witness :
  length [1] ≤ length [[W1; W2]]
  ∧ true && existsb is_wavefront [W1; W2] = true
  ∧ ∃ st, @search _ toy [1] [[W1; W2]] true = Next st.
Proof.
  assert (Hlen : length [1] ≤ length [[W1; W2]]) by (simpl; lia).
  split; [exact Hlen|]. split; [reflexivity|].
  apply (@eligible_point_disables_early_return _ toy [1] [[W1; W2]] true 0
           [W1; W2] Hlen ltac:(simpl; lia) eq_refl eq_refl).
Defined.

(** X17 at the same point with [allow_multiple_chips] false. *)
Lemma one_name_without_allow_witness :
  length [1] ≤ length [[W1; W2]]
  ∧ unique_names [[W1; W2]]
  ∧ @hits _ toy [1] [[W1; W2]] W2 0 = true
  ∧ ∃ names d',
      @_findDetectorsListLSST _ toy [1] [[W1; W2]] false = Ok names
      ∧ names !! 0 = Some (Some (getName d'))
      ∧ @hits _ toy [1] [[W1; W2]] d' 0 = true.
Proof.
  assert (Hlen : length [1] ≤ length [[W1; W2]]) by (simpl; lia).
  split; [exact Hlen|]. split; [exact wavefront_row_unique|].
  split; [reflexivity|].
  apply (@one_name_without_allow _ toy [1] [[W1; W2]] 0 [W1; W2] W2
           Hlen ltac:(simpl; lia) eq_refl wavefront_row_unique eq_refl).
Defined.
